(** * server.js: the eBay proxy (token cache and the two forwarding handlers)

    A shallow embedding of [src/server.js].  The process-wide variables
    [ebayToken] and [tokenExpiryTime] become a record threaded through a
    small state-and-exception monad; [Date.now()] and the outcome of each
    [axios] call are inputs of the invocation; every outbound call is
    appended to a log so that "performs no network call" is a statement
    about that log. *)

From stdpp Require Import gmap strings pretty.

Local Open Scope Z_scope.
Set Warnings "-register-all".

(** ** JavaScript values *)

(** A JavaScript string is a sequence of UTF-16 code units. *)
Definition jsstring := list N.

(** A source-code string literal (all of them are ASCII). *)
Definition lit (s : string) : jsstring :=
  Ascii.N_of_ascii <$> String.list_ascii_of_string s.

(** A number other than NaN: an integer, or one of the two infinities.
    (Fractions do not occur in the code modelled; minus zero is identified
    with zero.) *)
Inductive number :=
| Finite (z : Z)
| Infinite (negative : bool).

Coercion Finite : Z >-> number.

(** The values that travel through the handlers: query-string values as
    the [qs] parser of Express builds them (strings, arrays, objects), JSON
    bodies of the upstream, and the numbers the handlers compute; [JNaN] is
    the not-a-number value. *)
Inductive jsval :=
| JUndefined
| JNull
| JBool (b : bool)
| JNum (n : number)
| JNaN
| JStr (s : jsstring)
| JArr (items : list jsval)
| JObj (fields : list (jsstring * jsval)).

(** ToBoolean: what [!x], [x && y] and [x || y] test. *)
Definition truthy (v : jsval) : bool :=
  match v with
  | JUndefined | JNull | JNaN => false
  | JBool b => b
  | JNum (Finite z) => negb (z =? 0)
  | JNum (Infinite _) => true
  | JStr s => match s with [] => false | _ => true end
  | JArr _ | JObj _ => true
  end.

(** [a || b] *)
Definition js_or (a b : jsval) : jsval := if truthy a then a else b.

(** An environment variable or a cached string: a string or
    [undefined]/[null].  [!x] holds when it is absent or empty. *)
Definition str_truthy (o : option jsstring) : bool :=
  match o with
  | Some (_ :: _) => true
  | _ => false
  end.

(** *** String.prototype.trim *)

(** WhiteSpace and LineTerminator code points of ECMAScript (all in the
    basic plane, so one code unit each). *)
Definition is_js_space (c : N) : bool :=
  ((9 <=? c) && (c <=? 13) || (c =? 32) || (c =? 160) || (c =? 5760)
   || (8192 <=? c) && (c <=? 8202) || (c =? 8232) || (c =? 8233)
   || (c =? 8239) || (c =? 8287) || (c =? 12288) || (c =? 65279))%N.

Fixpoint trim_start (s : jsstring) : jsstring :=
  match s with
  | c :: s' => if is_js_space c then trim_start s' else s
  | [] => []
  end.

Definition trim_end (s : jsstring) : jsstring := rev (trim_start (rev s)).

Definition trim (s : jsstring) : jsstring := trim_end (trim_start s).

(** *** ToString and parseInt *)

Definition join_with (sep : jsstring) (parts : list jsstring) : jsstring :=
  match parts with
  | [] => []
  | p :: ps => p ++ concat ((λ q, sep ++ q) <$> ps)
  end.

(** An own property [toString] of an object built by the query parser
    ([?limit[toString]=1]); its value is never a function. *)
Definition has_own_toString (fields : list (jsstring * jsval)) : bool :=
  existsb (λ kv, bool_decide (kv.1 = lit "toString")) fields.

(** ToString; [None] when it throws a TypeError.  An array joins its
    elements with commas (an [undefined] or [null] element gives the empty
    string).  An object prints as [[object Object]] through
    [Object.prototype.toString], unless an own property [toString] shadows
    that method: the property is not callable, [valueOf] returns the object
    itself, and the conversion throws. *)
Fixpoint to_string (v : jsval) : option jsstring :=
  match v with
  | JUndefined => Some (lit "undefined")
  | JNull => Some (lit "null")
  | JBool true => Some (lit "true")
  | JBool false => Some (lit "false")
  | JNum (Finite z) => Some (lit (pretty z))
  | JNum (Infinite false) => Some (lit "Infinity")
  | JNum (Infinite true) => Some (lit "-Infinity")
  | JNaN => Some (lit "NaN")
  | JStr s => Some s
  | JArr items =>
      join_with (lit ",") <$>
        ((fix each (l : list jsval) : option (list jsstring) :=
            match l with
            | [] => Some []
            | x :: l' =>
                match
                  match x with
                  | JUndefined | JNull => Some []
                  | _ => to_string x
                  end, each l'
                with
                | Some s, Some ss => Some (s :: ss)
                | _, _ => None
                end
            end) items)
  | JObj fields =>
      if has_own_toString fields then None else Some (lit "[object Object]")
  end.

Definition digit_value (radix : N) (c : N) : option Z :=
  let d :=
    (if (48 <=? c) && (c <=? 57) then Some (c - 48)
     else if (97 <=? c) && (c <=? 122) then Some (c - 97 + 10)
     else if (65 <=? c) && (c <=? 90) then Some (c - 65 + 10)
     else None)%N in
  match d with
  | Some d => if (d <? radix)%N then Some (Z.of_N d) else None
  | None => None
  end.

(** The longest prefix of radix digits, read as a number; [None] when the
    prefix is empty. *)
Fixpoint parse_digits (radix : N) (acc : option Z) (s : jsstring) : option Z :=
  match s with
  | c :: s' =>
      match digit_value radix c with
      | Some d => parse_digits radix (Some (default 0 acc * Z.of_N radix + d)) s'
      | None => acc
      end
  | [] => acc
  end.

(** The double nearest to the integer [m >= 0], ties to the even
    significand: [m] itself below 2^53, a multiple of a power of two above,
    and [Infinity] from 2^1024 on. *)
Definition round_to_double (m : Z) : number :=
  if m <? 2 ^ 53 then Finite m
  else
    let e := Z.log2 m - 52 in
    let q := Z.shiftr m e in
    let r := Z.land m (Z.ones e) in
    let half := Z.shiftl 1 (e - 1) in
    let q := if (half <? r) || ((r =? half) && Z.odd q) then q + 1 else q in
    let v := Z.shiftl q e in
    if 2 ^ 1024 <=? v then Infinite false else Finite v.

Definition number_opp (n : number) : number :=
  match n with
  | Finite z => Finite (- z)
  | Infinite negative => Infinite (negb negative)
  end.

(** [parseInt] on a string, with no radix argument: leading white space is
    skipped, a sign is read, [0x]/[0X] selects radix 16, and the digits up to
    the first character that is not one are read; without digits the result
    is NaN, otherwise the double nearest to the integer read. *)
Definition parseInt_string (s : jsstring) : jsval :=
  let s := trim_start s in
  let '(negative, s) :=
    match s with
    | 45%N :: s' => (true, s')
    | 43%N :: s' => (false, s')
    | _ => (false, s)
    end in
  let '(radix, s) :=
    match s with
    | 48%N :: 120%N :: s' => (16%N, s')
    | 48%N :: 88%N :: s' => (16%N, s')
    | _ => (10%N, s)
    end in
  match parse_digits radix None s with
  | Some m => JNum (if negative then number_opp (round_to_double m)
                    else round_to_double m)
  | None => JNaN
  end.

(** [parseInt(v)]: the argument is converted to a string first; [None] when
    that conversion throws. *)
Definition parseInt (v : jsval) : option jsval :=
  parseInt_string <$> to_string v.



(** ** Errors, outbound calls and the process state *)

(** What [error.response] holds when the upstream answered. *)
Record http_response := { status : Z; data : jsval }.

(** A thrown value: an [Error] with its [message]; an error raised by
    [axios] for an answered request also carries [response]. *)
Record js_error := { message : jsstring; response : option http_response }.

(** [new Error(msg)] *)
Definition new_Error (msg : jsstring) : js_error :=
  {| message := msg; response := None |}.

(** The [Authorization] header: [Basic] carries [id:secret] (sent in
    base64), [Bearer] the access token. *)
Inductive authorization :=
| Basic (credentials : jsstring)
| Bearer (token : jsstring).

(** An outbound call, as handed to [axios.post] or [axios.get]. *)
Inductive request :=
| POST (url body content_type : jsstring) (auth : authorization)
| GET (url : jsstring) (auth : authorization) (marketplace_id : jsstring)
      (params : option (gmap string jsval)).

(** The body of a successful identity response, as the identity endpoint
    documents it: the access token and its lifetime in seconds. *)
Record grant := { access_token : jsstring; expires_in : Z }.

(** How the promise of an [axios] call settles. *)
Inductive settled (A : Type) :=
| Fulfilled (value : A)
| Rejected (error : js_error).
Arguments Fulfilled {A} value.
Arguments Rejected {A} error.

(** The outside world as seen through [axios]. *)
Record network := {
  identity_endpoint : request → settled grant;
  browse_endpoint : request → settled jsval
}.

(** The module-level variables [ebayToken] ([None] is [null]) and
    [tokenExpiryTime], and the log of the calls sent so far. *)
Record world := {
  ebayToken : option jsstring;
  tokenExpiryTime : Z;
  outbound : list request
}.

(** The state at [let ebayToken = null; let tokenExpiryTime = 0;]. *)
Definition initial_world : world :=
  {| ebayToken := None; tokenExpiryTime := 0; outbound := [] |}.

Definition set_ebayToken (t : option jsstring) (w : world) : world :=
  {| ebayToken := t; tokenExpiryTime := tokenExpiryTime w; outbound := outbound w |}.

Definition set_tokenExpiryTime (e : Z) (w : world) : world :=
  {| ebayToken := ebayToken w; tokenExpiryTime := e; outbound := outbound w |}.

Definition log_request (r : request) (w : world) : world :=
  {| ebayToken := ebayToken w; tokenExpiryTime := tokenExpiryTime w;
     outbound := outbound w ++ [r] |}.

(** ** The monad of the server code: state and exceptions *)

Inductive result (A : Type) :=
| Return (a : A)
| Throw (e : js_error).
Arguments Return {A} a.
Arguments Throw {A} e.

Definition M (A : Type) : Type := world → result A * world.

#[global] Instance M_ret : MRet M := λ A a w, (Return a, w).

#[global] Instance M_bind : MBind M := λ A B f m w,
  match m w with
  | (Return a, w') => f a w'
  | (Throw e, w') => (Throw e, w')
  end.

Definition throw {A} (e : js_error) : M A := λ w, (Throw e, w).

(** [try { body } catch (error) { handler }] *)
Definition try_catch {A} (body : M A) (handler : js_error → M A) : M A := λ w,
  match body w with
  | (Return a, w') => (Return a, w')
  | (Throw e, w') => handler e w'
  end.

Definition read : M world := λ w, (Return w, w).

Definition modify (f : world → world) : M unit := λ w, (Return (), f w).

(** [await axios.post(...)] and [await axios.get(...)]: the call is sent,
    and the promise settles as the network decides. *)
Definition await {A} (endpoint : request → settled A) (r : request) : M A := λ w,
  (match endpoint r with
   | Fulfilled v => Return v
   | Rejected e => Throw e
   end, log_request r w).

(** ** The server *)

Section Server.

(** [process.env], read once when the module is loaded. *)
Variable env : gmap string jsstring.

Definition isProduction : bool :=
  bool_decide (env !! "EBAY_API_ENV" = Some (lit "production")).

Definition EBAY_API_BASE_URL : jsstring :=
  if isProduction then lit "https://api.ebay.com"
  else lit "https://api.sandbox.ebay.com".

Definition EBAY_IDENTITY_URL : jsstring :=
  EBAY_API_BASE_URL ++ lit "/identity/v1/oauth2/token".

Definition EBAY_BROWSE_URL : jsstring :=
  EBAY_API_BASE_URL ++ lit "/buy/browse/v1".

Definition EBAY_CLIENT_ID : option jsstring :=
  if isProduction then env !! "EBAY_PRODUCTION_CLIENT_ID"
  else env !! "EBAY_SANDBOX_CLIENT_ID".

Definition EBAY_CLIENT_SECRET : option jsstring :=
  if isProduction then env !! "EBAY_PRODUCTION_CLIENT_SECRET"
  else env !! "EBAY_SANDBOX_CLIENT_SECRET".

Definition CLOTHING_CATEGORY_ID : jsstring := lit "11450".

Definition tokenBufferSeconds : Z := 300.

(** [process.env.EBAY_MARKETPLACE_ID || (isProduction ? 'EBAY-US' : 'EBAY-US')] *)
Definition marketplace_header : jsstring :=
  match env !! "EBAY_MARKETPLACE_ID" with
  | Some (c :: s) => c :: s
  | _ => if isProduction then lit "EBAY-US" else lit "EBAY-US"
  end.

(** *** Token management *)

(** The test [ebayToken && tokenExpiryTime > now + tokenBufferSeconds * 1000];
    when it holds, the value is the cached token. *)
Definition cached_token (now : Z) (w : world) : option jsstring :=
  match ebayToken w with
  | Some tok =>
      if str_truthy (Some tok) && (tokenExpiryTime w >? now + tokenBufferSeconds * 1000)
      then Some tok else None
  | None => None
  end.

Definition missing_credentials_message : jsstring :=
  lit "Credenziali eBay non configurate sul server per l'ambiente corrente.".

Definition token_failure_message (error : js_error) : jsstring :=
  lit "Impossibile ottenere il token di accesso eBay per "
  ++ (if isProduction then lit "Production" else lit "Sandbox")
  ++ lit ". Dettagli: " ++ message error.

Definition token_request (credentials : jsstring) : request :=
  POST EBAY_IDENTITY_URL
    (lit "grant_type=client_credentials&scope=https://api.ebay.com/oauth/api_scope")
    (lit "application/x-www-form-urlencoded")
    (Basic credentials).

(** The constant [credentials] before its base64 encoding:
    [`${EBAY_CLIENT_ID}:${EBAY_CLIENT_SECRET}`]. *)
Definition client_credentials : jsstring :=
  default [] EBAY_CLIENT_ID ++ lit ":" ++ default [] EBAY_CLIENT_SECRET.

(** The rest of the [try] block once [axios.post] has answered. *)
Definition token_granted (now : Z) (response : grant) : M jsstring :=
  modify (set_ebayToken (Some (access_token response)));;
  modify (set_tokenExpiryTime (now + expires_in response * 1000));;
  mret (access_token response).

(** The [catch] block. *)
Definition token_refused (error : js_error) : M jsstring :=
  modify (set_ebayToken None);;
  modify (set_tokenExpiryTime 0);;
  throw (new_Error (token_failure_message error)).

(** [async function getEbayToken()], with [now] the value of [Date.now()]
    at its first line. *)
Definition getEbayToken (now : Z) (net : network) : M jsstring :=
  w ← read;
  match cached_token now w with
  | Some tok => mret tok
  | None =>
      if negb (str_truthy EBAY_CLIENT_ID) || negb (str_truthy EBAY_CLIENT_SECRET)
      then throw (new_Error missing_credentials_message)
      else
        try_catch
          (response ← await (identity_endpoint net) (token_request client_credentials);
           token_granted now response)
          token_refused
  end.

(** *** The handlers *)

(** The status and the body a handler passes to [res.status(s).json(b)];
    [res.json(b)] is the same with status 200. *)
Record reply := { reply_status : Z; reply_body : jsval }.

Definition res_json (body : jsval) : reply :=
  {| reply_status := 200; reply_body := body |}.

(** [error.response?.status || 500] *)
Definition error_status (error : js_error) : Z :=
  match response error with
  | Some r => if status r =? 0 then 500 else status r
  | None => 500
  end.

(** [error.response?.data || error.message] *)
Definition error_details (error : js_error) : jsval :=
  match response error with
  | Some r => js_or (data r) (JStr (message error))
  | None => JStr (message error)
  end.

Definition error_reply (msg : jsstring) (error : js_error) : reply :=
  {| reply_status := error_status error;
     reply_body := JObj [(lit "message", JStr msg);
                         (lit "details", error_details error)] |}.

(** [q.trim()]: only a string has the method; on anything else the call
    throws a TypeError. *)
Definition call_trim (q : jsval) : M jsstring :=
  match q with
  | JStr s => mret (trim s)
  | _ => throw (new_Error (lit "q.trim is not a function"))
  end.

(** The call [parseInt(v)]; the TypeError of the string conversion is
    thrown to the caller. *)
Definition call_parseInt (v : jsval) : M jsval :=
  match parseInt v with
  | Some n => mret n
  | None => throw (new_Error (lit "Cannot convert object to primitive value"))
  end.

(** The object [searchParams] as it stands when the [try] block is
    entered. *)
Definition build_searchParams (query : gmap string jsval) : M (gmap string jsval) :=
  let q := default (JStr (lit "")) (query !! "q") in
  let limit := default (JNum 20) (query !! "limit") in
  let offset := default (JNum 0) (query !! "offset") in
  let category := default (JStr CLOTHING_CATEGORY_ID) (query !! "category") in
  limit ← call_parseInt limit;
  offset ← call_parseInt offset;
  let searchParams : gmap string jsval :=
    <["offset" := offset]> (<["limit" := limit]> ∅) in
  searchParams ←
    (if truthy q then
       t ← call_trim q;
       if bool_decide (t ≠ lit "") then mret (<["q" := JStr t]> searchParams)
       else mret searchParams
     else mret searchParams);
  mret (<["category_ids" := category]> searchParams).

Definition search_error_message : jsstring :=
  lit "Errore durante la comunicazione con l'API di eBay.".

(** [app.get('/api/ebay/search', ...)], with [query] the object [req.query],
    up to the values it passes to [res]: the result is the reply it asks
    Express to send, by [res.json] in the [try] block or by
    [res.status(...).json] in the [catch] block. *)
Definition search_handler (query : gmap string jsval) (now : Z) (net : network)
  : M reply :=
  searchParams ← build_searchParams query;
  try_catch
    (token ← getEbayToken now net;
     let searchUrl := EBAY_BROWSE_URL ++ lit "/item_summary/search" in
     ebayResponse ← await (browse_endpoint net)
       (GET searchUrl (Bearer token) marketplace_header (Some searchParams));
     mret (res_json ebayResponse))
    (λ error, mret (error_reply search_error_message error)).

Definition item_error_message : jsstring :=
  lit "Errore durante la comunicazione con l'API di eBay per i dettagli dell'oggetto.".

(** [app.get('/api/ebay/item/:itemId', ...)], with [itemId] the value of
    [req.params.itemId] ([None] is [undefined]), up to the values it passes
    to [res]. *)
Definition item_handler (itemId : option jsstring) (now : Z) (net : network)
  : M reply :=
  if negb (str_truthy itemId) then
    mret {| reply_status := 400;
            reply_body := JObj [(lit "error", JStr (lit "eBay Item ID mancante nell'URL."))] |}
  else
    try_catch
      (token ← getEbayToken now net;
       let itemUrl := EBAY_BROWSE_URL ++ lit "/item/" ++ default [] itemId in
       ebayResponse ← await (browse_endpoint net)
         (GET itemUrl (Bearer token) marketplace_header None);
       mret (res_json ebayResponse))
      (λ error, mret (error_reply item_error_message error)).

(** *** Sending the reply *)

(** What [res.status(s).json(b)] does with the values it is given: the
    status is handed to Node, which accepts 100 to 999 and throws a
    RangeError for anything else.  With status 200 and 400 the call always
    succeeds; in the [catch] blocks the status comes from the upstream, and
    the error is thrown out of the handler. *)
Definition send (r : reply) : M reply :=
  if (100 <=? reply_status r) && (reply_status r <=? 999) then mret r
  else throw (new_Error (lit "Invalid status code: " ++ lit (pretty (reply_status r)))).

(** The whole callback of [app.get('/api/ebay/search', ...)]: the result is
    the reply sent, or the error the callback ends with. *)
Definition search_route (query : gmap string jsval) (now : Z) (net : network)
  : M reply :=
  r ← search_handler query now net;
  send r.

(** The whole callback of [app.get('/api/ebay/item/:itemId', ...)]. *)
Definition item_route (itemId : option jsstring) (now : Z) (net : network)
  : M reply :=
  r ← item_handler itemId now net;
  send r.

(** *** The states the process can be in *)

(** The buffer window of the specification, in milliseconds. *)
Definition bufferWindow : Z := tokenBufferSeconds * 1000.

(** Both credentials of the active environment are set and non-empty. *)
Definition credentials_configured : Prop :=
  str_truthy EBAY_CLIENT_ID = true ∧ str_truthy EBAY_CLIENT_SECRET = true.

(** The states reached from the initial one by any sequence of invocations,
    at any times and whatever the network answers.  The first four rules run
    an invocation to its end.  The last three cover invocations that overlap
    in time: one that is suspended at [await axios.post(...)] has passed the
    credentials test and has sent its call; it resumes later, in whatever
    state the others have left, with [token_granted] or [token_refused]. *)
Inductive reachable : world → Prop :=
| reachable_initial :
    reachable initial_world
| reachable_getEbayToken w now net :
    reachable w → reachable (snd (getEbayToken now net w))
| reachable_search w query now net :
    reachable w → reachable (snd (search_handler query now net w))
| reachable_item w itemId now net :
    reachable w → reachable (snd (item_handler itemId now net w))
| reachable_sent w r :
    reachable w → credentials_configured → reachable (log_request r w)
| reachable_granted w now response :
    reachable w → credentials_configured →
    reachable (snd (token_granted now response w))
| reachable_refused w error :
    reachable w → credentials_configured →
    reachable (snd (token_refused error w)).

(** The four ways an invocation of [getEbayToken] that runs without
    interruption can go: cache hit, missing credentials, token granted,
    call failed. *)
Inductive getEbayToken_run (now : Z) (net : network) (w : world) : result jsstring * world → Prop :=
| run_hit tok :
    cached_token now w = Some tok →
    getEbayToken_run now net w (Return tok, w)
| run_unconfigured :
    cached_token now w = None →
    ¬ credentials_configured →
    getEbayToken_run now net w (Throw (new_Error missing_credentials_message), w)
| run_granted g :
    cached_token now w = None →
    credentials_configured →
    identity_endpoint net (token_request client_credentials) = Fulfilled g →
    getEbayToken_run now net w
      (Return (access_token g),
       {| ebayToken := Some (access_token g);
          tokenExpiryTime := now + expires_in g * 1000;
          outbound := outbound w ++ [token_request client_credentials] |})
| run_rejected e :
    cached_token now w = None →
    credentials_configured →
    identity_endpoint net (token_request client_credentials) = Rejected e →
    getEbayToken_run now net w
      (Throw (new_Error (token_failure_message e)),
       {| ebayToken := None; tokenExpiryTime := 0;
          outbound := outbound w ++ [token_request client_credentials] |}).

End Server.

(** ** The errors [axios] raises *)

(** The upstream answered with a status outside 2xx. *)
Definition http_failure (code : Z) (payload : jsval) : js_error :=
  {| message := lit "Request failed with status code " ++ lit (pretty code);
     response := Some {| status := code; data := payload |} |}.

(** No answer at all (connection refused, timeout, DNS failure). *)
Definition transport_failure (reason : jsstring) : js_error :=
  {| message := reason; response := None |}.

(** ** Reading a logged call *)

Definition request_url (r : request) : jsstring :=
  match r with
  | POST url _ _ _ => url
  | GET url _ _ _ => url
  end.

Definition request_auth (r : request) : authorization :=
  match r with
  | POST _ _ _ auth => auth
  | GET _ auth _ _ => auth
  end.

(** ** Concrete runs *)

Module Scenario.

(** A [.env] with sandbox credentials only. *)
Definition sandbox_env : gmap string jsstring :=
  <["EBAY_SANDBOX_CLIENT_ID" := lit "app-id"]>
    (<["EBAY_SANDBOX_CLIENT_SECRET" := lit "app-secret"]> ∅).

(** A [.env] that selects production but gives no production credentials. *)
Definition production_env_without_credentials : gmap string jsstring :=
  <["EBAY_API_ENV" := lit "production"]> sandbox_env.

Definition search_results : jsval :=
  JObj [(lit "total", JNum 1);
        (lit "itemSummaries", JArr [JObj [(lit "itemId", JStr (lit "v1|123|0"))]])].

Definition invalid_client : jsval :=
  JObj [(lit "error", JStr (lit "invalid_client"))].

(** Every call succeeds; the identity endpoint issues [token] for two hours. *)
Definition healthy (token : string) : network :=
  {| identity_endpoint := λ _, Fulfilled {| access_token := lit token; expires_in := 7200 |};
     browse_endpoint := λ _, Fulfilled search_results |}.

(** The identity endpoint rejects the grant with 401. *)
Definition identity_401 : network :=
  {| identity_endpoint := λ _, Rejected (http_failure 401 invalid_client);
     browse_endpoint := λ _, Fulfilled search_results |}.


(** The state after one acquisition at time 0 from a fresh process. *)
Definition after_first_token : world :=
  snd (getEbayToken sandbox_env 0 (healthy "tok") initial_world).

(** [GET /api/ebay/search?q=%20jacket%20&limit=5] and the parameters the
    handler builds for it. *)
Definition jacket_query : gmap string jsval :=
  <["q" := JStr (lit " jacket ")]> (<["limit" := JStr (lit "5")]> ∅).

Definition jacket_params : gmap string jsval :=
  <["category_ids" := JStr (lit "11450")]>
    (<["q" := JStr (lit "jacket")]>
       (<["offset" := JNum 0]> (<["limit" := JNum 5]> ∅))).

(** The parameters built for [GET /api/ebay/search]. *)
Definition default_params : gmap string jsval :=
  <["category_ids" := JStr (lit "11450")]>
    (<["offset" := JNum 0]> (<["limit" := JNum 20]> ∅)).

(** The state after a refresh at the expiry time that the identity endpoint
    rejected. *)
Definition after_rejected_refresh : world :=
  snd (getEbayToken sandbox_env 7200000 identity_401 after_first_token).

End Scenario.

(** Further runs, at the edges of the cache test and of the query parser. *)
Module Edge.

(** The identity endpoint issues a token for exactly the buffer window. *)
Definition short_grant : network :=
  {| identity_endpoint := λ _, Fulfilled {| access_token := lit "tok"; expires_in := 300 |};
     browse_endpoint := λ _, Fulfilled Scenario.search_results |}.


(** [GET /api/ebay/search?q=shoes&sort=price&limit=abc]: an unknown key and a
    limit that is not a number. *)
Definition unknown_key : gmap string jsval :=
  <["q" := JStr (lit "shoes")]>
    (<["sort" := JStr (lit "price")]> (<["limit" := JStr (lit "abc")]> ∅)).

Definition unknown_key_params : gmap string jsval :=
  <["category_ids" := JStr (lit "11450")]>
    (<["q" := JStr (lit "shoes")]>
       (<["offset" := JNum 0]> (<["limit" := JNaN]> ∅))).

(** [GET /api/ebay/search?limit[toString]=1]: the parser gives an object
    with an own property [toString] for [limit]. *)
Definition shadowed_toString : gmap string jsval :=
  <["limit" := JObj [(lit "toString", JStr (lit "1"))]]> ∅.

(** The identity endpoint works, the marketplace answers with the status
    line [HTTP/1.1 099]. *)
Definition browse_099 : network :=
  {| identity_endpoint := λ _, Fulfilled {| access_token := lit "tok"; expires_in := 7200 |};
     browse_endpoint := λ _, Rejected (http_failure 99 JNull) |}.

(** A [.env] that selects production and gives both pairs of credentials. *)
Definition both_env : gmap string jsstring :=
  <["EBAY_API_ENV" := lit "production"]>
    (<["EBAY_PRODUCTION_CLIENT_ID" := lit "prod-id"]>
       (<["EBAY_PRODUCTION_CLIENT_SECRET" := lit "prod-secret"]> Scenario.sandbox_env)).

End Edge.

(** * Properties *)

Example parseInt_20 : parseInt (JNum 20) = Some (JNum 20).
Proof. reflexivity. Qed.

Example parseInt_str : parseInt (JStr (lit " 42px")) = Some (JNum 42).
Proof. reflexivity. Qed.

Example parseInt_hex : parseInt (JStr (lit "-0x1f")) = Some (JNum (-31)).
Proof. reflexivity. Qed.

Example parseInt_arr : parseInt (JArr [JStr (lit "7"); JStr (lit "8")]) = Some (JNum 7).
Proof. reflexivity. Qed.

Example parseInt_nan : parseInt (JStr (lit "abc")) = Some JNaN.
Proof. reflexivity. Qed.

Example parseInt_rounds :
  parseInt (JStr (lit "9007199254740993")) = Some (JNum 9007199254740992).
Proof. reflexivity. Qed.

Example parseInt_shadowed :
  parseInt (JObj [(lit "toString", JStr (lit "1"))]) = None.
Proof. reflexivity. Qed.

Example trim_jacket : trim (lit "  jacket ") = lit "jacket".
Proof. reflexivity. Qed.

(** ** The runs of [getEbayToken] *)

Section TokenManager.

Context (env : gmap string jsstring).

Implicit Types (w : world) (now : Z) (net : network).

Lemma cached_token_fresh now w tok :
  cached_token now w = Some tok ↔
  ebayToken w = Some tok ∧ tok ≠ [] ∧ tokenExpiryTime w > now + bufferWindow.
Proof.
  unfold cached_token, bufferWindow. destruct (ebayToken w) as [[|c s]|]; cbn.
  - split; [discriminate | intros ([= <-] & Hne & _); done].
  - destruct (Z.gtb_spec (tokenExpiryTime w) (now + tokenBufferSeconds * 1000)).
    + split; [intros [= <-] | intros ([= <-] & _ & _)]; repeat split; try done; lia.
    + split; [discriminate | intros (_ & _ & Hgt); lia].
  - split; [discriminate | intros ([=] & _)].
Qed.

Lemma cached_token_stale now w :
  ebayToken w = None ∨ tokenExpiryTime w - bufferWindow ≤ now →
  cached_token now w = None.
Proof.
  intros H. destruct (cached_token now w) as [tok|] eqn:E; [|done].
  apply cached_token_fresh in E as (Htok & _ & Hgt).
  destruct H as [H|H]; [congruence | lia].
Qed.

(** Cache hit: the token is returned and nothing changes. *)
Lemma getEbayToken_hit now net w tok :
  cached_token now w = Some tok →
  getEbayToken env now net w = (Return tok, w).
Proof.
  intros Hc. unfold getEbayToken, mbind, M_bind, read. by rewrite Hc.
Qed.

(** Cache miss without credentials: the error is thrown before anything is
    sent or written. *)
Lemma getEbayToken_unconfigured now net w :
  cached_token now w = None →
  ¬ credentials_configured env →
  getEbayToken env now net w = (Throw (new_Error missing_credentials_message), w).
Proof.
  intros Hc Hn. unfold getEbayToken, mbind, M_bind, read. rewrite Hc.
  unfold credentials_configured in Hn.
  destruct (str_truthy (EBAY_CLIENT_ID env)), (str_truthy (EBAY_CLIENT_SECRET env));
    cbn [negb orb]; try done.
  destruct Hn; done.
Qed.

(** Cache miss, the identity endpoint grants a token. *)
Lemma getEbayToken_granted now net w g :
  cached_token now w = None →
  credentials_configured env →
  identity_endpoint net (token_request env (client_credentials env)) = Fulfilled g →
  getEbayToken env now net w =
    (Return (access_token g),
     {| ebayToken := Some (access_token g);
        tokenExpiryTime := now + expires_in g * 1000;
        outbound := outbound w ++ [token_request env (client_credentials env)] |}).
Proof.
  intros Hc [Hi Hs] Hg. unfold getEbayToken, mbind, M_bind, read.
  rewrite Hc, Hi, Hs. cbn [negb orb]. unfold try_catch, await. by rewrite Hg.
Qed.

(** Cache miss, the call to the identity endpoint fails. *)
Lemma getEbayToken_rejected now net w e :
  cached_token now w = None →
  credentials_configured env →
  identity_endpoint net (token_request env (client_credentials env)) = Rejected e →
  getEbayToken env now net w =
    (Throw (new_Error (token_failure_message env e)),
     {| ebayToken := None; tokenExpiryTime := 0;
        outbound := outbound w ++ [token_request env (client_credentials env)] |}).
Proof.
  intros Hc [Hi Hs] Hg. unfold getEbayToken, mbind, M_bind, read.
  rewrite Hc, Hi, Hs. cbn [negb orb]. unfold try_catch, await. by rewrite Hg.
Qed.

Lemma credentials_configured_dec : Decision (credentials_configured env).
Proof. unfold credentials_configured. apply _. Defined.

(** The four runs above are the only ones. *)
Lemma getEbayToken_cases now net w :
  getEbayToken_run env now net w (getEbayToken env now net w).
Proof.
  destruct (cached_token now w) as [tok|] eqn:Hc.
  - rewrite (getEbayToken_hit _ _ _ _ Hc). by constructor.
  - destruct credentials_configured_dec as [Hk|Hk].
    + destruct (identity_endpoint net (token_request env (client_credentials env)))
        as [g|e] eqn:Hg.
      * rewrite (getEbayToken_granted _ _ _ _ Hc Hk Hg). by constructor.
      * rewrite (getEbayToken_rejected _ _ _ _ Hc Hk Hg). by constructor.
    + rewrite (getEbayToken_unconfigured _ _ _ Hc Hk). by constructor.
Qed.

End TokenManager.

(** ** [parseInt] on decimal numerals *)











(** ** Claims about the token cache *)

(** C8. When an invocation at time [now] misses the cache and the identity
    endpoint answers with a grant, [getEbayToken] stores the granted access
    token, sets [tokenExpiryTime] to [now + expires_in * 1000], and returns
    that token. *)
Theorem successful_acquisition_stores_token env now net w g :
  cached_token now w = None →
  credentials_configured env →
  identity_endpoint net (token_request env (client_credentials env)) = Fulfilled g →
  ∃ w', getEbayToken env now net w = (Return (access_token g), w')
        ∧ ebayToken w' = Some (access_token g)
        ∧ tokenExpiryTime w' = now + expires_in g * 1000.
Proof.
  intros Hc Hk Hg. eexists. split; [by apply getEbayToken_granted|]. done.
Qed.

Lemma successful_acquisition_stores_token_witness :
  ∃ w', getEbayToken Scenario.sandbox_env 5000 (Scenario.healthy "tok") initial_world
          = (Return (lit "tok"), w')
        ∧ ebayToken w' = Some (lit "tok")
        ∧ tokenExpiryTime w' = 5000 + 7200 * 1000.
Proof.
  apply (successful_acquisition_stores_token Scenario.sandbox_env 5000
           (Scenario.healthy "tok") initial_world
           {| access_token := lit "tok"; expires_in := 7200 |}).
  - reflexivity.
  - split; reflexivity.
  - reflexivity.
Defined.

(** C5. When the client id or the client secret of the active environment is
    absent or empty, an invocation that misses the cache throws the
    missing-credentials error and leaves the state, and so the log of
    outbound calls, as it was. *)
Theorem missing_credentials_fail_without_call env now net w :
  cached_token now w = None →
  EBAY_CLIENT_ID env = None ∨ EBAY_CLIENT_ID env = Some []
  ∨ EBAY_CLIENT_SECRET env = None ∨ EBAY_CLIENT_SECRET env = Some [] →
  getEbayToken env now net w = (Throw (new_Error missing_credentials_message), w).
Proof.
  intros Hc Hmiss. apply getEbayToken_unconfigured; [done|].
  intros [Hi Hs]. destruct Hmiss as [H|[H|[H|H]]]; rewrite H in *; discriminate.
Qed.

Lemma missing_credentials_fail_without_call_witness :
  getEbayToken Scenario.production_env_without_credentials 0 (Scenario.healthy "tok")
    initial_world
  = (Throw (new_Error missing_credentials_message), initial_world).
Proof.
  apply missing_credentials_fail_without_call.
  - reflexivity.
  - left. reflexivity.
Defined.

(** C10. Whenever the cache holds a non-empty token whose expiry is more than
    the buffer window ahead of [now], [getEbayToken] returns it and changes
    nothing, whatever the environment variables are: the credentials are
    looked at only after a cache miss. *)
Theorem fresh_cache_needs_no_credentials env now net w tok :
  ebayToken w = Some tok →
  tok ≠ [] →
  tokenExpiryTime w > now + bufferWindow →
  getEbayToken env now net w = (Return tok, w).
Proof.
  intros Ht Hne Hgt. apply getEbayToken_hit. by apply cached_token_fresh.
Qed.

Lemma fresh_cache_needs_no_credentials_witness :
  EBAY_CLIENT_ID ∅ = None ∧ EBAY_CLIENT_SECRET ∅ = None
  ∧ getEbayToken ∅ 1000 (Scenario.healthy "other")
      {| ebayToken := Some (lit "tok"); tokenExpiryTime := 301001; outbound := [] |}
    = (Return (lit "tok"),
       {| ebayToken := Some (lit "tok"); tokenExpiryTime := 301001; outbound := [] |}).
Proof.
  split; [reflexivity|]. split; [reflexivity|].
  apply fresh_cache_needs_no_credentials.
  - reflexivity.
  - discriminate.
  - reflexivity.
Defined.

(** C4. Every invocation sends at most one call, and only after the cache
    test has failed.  With credentials configured, an invocation that finds
    the cache empty, or at a time [now > t0 + L*1000 - bufferWindow] for a
    cached expiry [t0 + L*1000], sends exactly one call, to the identity
    endpoint; when that call succeeds the granted token is returned and
    stored with the expiry [now + expires_in * 1000]. *)
Theorem stale_cache_refreshes_once env now net w :
  (∃ sent, outbound (snd (getEbayToken env now net w)) = outbound w ++ sent
           ∧ (length sent ≤ 1)%nat
           ∧ (sent ≠ [] → cached_token now w = None))
  ∧ (credentials_configured env →
     ebayToken w = None
     ∨ (∃ t0 L, tokenExpiryTime w = t0 + L * 1000 ∧ now > t0 + L * 1000 - bufferWindow) →
     outbound (snd (getEbayToken env now net w))
       = outbound w ++ [token_request env (client_credentials env)]
     ∧ ∀ g, identity_endpoint net (token_request env (client_credentials env)) = Fulfilled g →
            getEbayToken env now net w
            = (Return (access_token g),
               {| ebayToken := Some (access_token g);
                  tokenExpiryTime := now + expires_in g * 1000;
                  outbound := outbound w ++ [token_request env (client_credentials env)] |})).
Proof.
  split.
  - destruct (getEbayToken_cases env now net w) as [tok Hc|Hc Hk|g Hc Hk Hg|e Hc Hk Hg];
      cbn [snd outbound].
    + exists []. rewrite app_nil_r. split; [done|]. split; [cbn; lia | done].
    + exists []. rewrite app_nil_r. split; [done|]. split; [cbn; lia | done].
    + eexists [_]. split; [done|]. split; [cbn; lia | done].
    + eexists [_]. split; [done|]. split; [cbn; lia | done].
  - intros Hk Hstale.
    assert (cached_token now w = None) as Hc.
    { apply cached_token_stale. destruct Hstale as [H|(t0 & L & He & Hgt)]; [by left|].
      right. lia. }
    split.
    + destruct (identity_endpoint net (token_request env (client_credentials env)))
        as [g|e] eqn:Hg.
      * by rewrite (getEbayToken_granted _ _ _ _ _ Hc Hk Hg).
      * by rewrite (getEbayToken_rejected _ _ _ _ _ Hc Hk Hg).
    + intros g Hg. by apply getEbayToken_granted.
Qed.

Lemma stale_cache_refreshes_once_witness :
  outbound (snd (getEbayToken Scenario.sandbox_env 6900001 (Scenario.healthy "tok2")
                   Scenario.after_first_token))
  = outbound Scenario.after_first_token
    ++ [token_request Scenario.sandbox_env (client_credentials Scenario.sandbox_env)].
Proof.
  apply (stale_cache_refreshes_once Scenario.sandbox_env 6900001
           (Scenario.healthy "tok2") Scenario.after_first_token).
  - split; reflexivity.
  - right. exists 0, 7200. split; reflexivity.
Defined.

(** C2, amended.  A non-empty token acquired at time [t0] with lifetime
    [expires_in] seconds is returned from the cache, with no outbound call
    and no change of state, by every invocation at a time [t] with
    [t0 <= t < t0 + expires_in * 1000 - bufferWindow]. *)
Theorem cached_token_served_inside_window env w0 net0 t0 g t net :
  cached_token t0 w0 = None →
  credentials_configured env →
  identity_endpoint net0 (token_request env (client_credentials env)) = Fulfilled g →
  access_token g ≠ [] →
  t0 ≤ t < t0 + expires_in g * 1000 - bufferWindow →
  getEbayToken env t net (snd (getEbayToken env t0 net0 w0))
  = (Return (access_token g), snd (getEbayToken env t0 net0 w0)).
Proof.
  intros Hc Hk Hg Hne Ht. rewrite (getEbayToken_granted _ _ _ _ _ Hc Hk Hg).
  cbn [snd]. apply getEbayToken_hit, cached_token_fresh. cbn.
  unfold bufferWindow, tokenBufferSeconds in *. repeat split; [done|lia].
Qed.

Lemma cached_token_served_inside_window_witness :
  getEbayToken Scenario.sandbox_env 6899999 (Scenario.healthy "tok2")
    (snd (getEbayToken Scenario.sandbox_env 0 (Scenario.healthy "tok") initial_world))
  = (Return (lit "tok"),
     snd (getEbayToken Scenario.sandbox_env 0 (Scenario.healthy "tok") initial_world)).
Proof.
  apply (cached_token_served_inside_window Scenario.sandbox_env initial_world
           (Scenario.healthy "tok") 0
           {| access_token := lit "tok"; expires_in := 7200 |}).
  - reflexivity.
  - split; reflexivity.
  - reflexivity.
  - discriminate.
  - unfold bufferWindow, tokenBufferSeconds. cbn. lia.
Defined.

(** C2 as stated fails at the boundary instant.  The token ["tok"] is
    acquired at time 0 for 7200 seconds; at [t = 7200 * 1000 - 300000] the
    test [tokenExpiryTime > now + 300000] is false, so the invocation sends
    a second call to the identity endpoint and returns the newly granted
    token instead of the cached one. *)
Lemma boundary_instant_refreshes :
  getEbayToken Scenario.sandbox_env 0 (Scenario.healthy "tok") initial_world
    = (Return (lit "tok"), Scenario.after_first_token)
  ∧ outbound Scenario.after_first_token
    = [token_request Scenario.sandbox_env (client_credentials Scenario.sandbox_env)]
  ∧ 0 ≤ 6900000 ≤ 0 + 7200 * 1000 - bufferWindow
  ∧ getEbayToken Scenario.sandbox_env 6900000 (Scenario.healthy "tok2")
      Scenario.after_first_token
    = (Return (lit "tok2"),
       {| ebayToken := Some (lit "tok2");
          tokenExpiryTime := 6900000 + 7200 * 1000;
          outbound :=
            [token_request Scenario.sandbox_env (client_credentials Scenario.sandbox_env);
             token_request Scenario.sandbox_env (client_credentials Scenario.sandbox_env)] |})
  ∧ getEbayToken Scenario.sandbox_env 6900000 (Scenario.healthy "tok2")
      Scenario.after_first_token
    ≠ (Return (lit "tok"), Scenario.after_first_token).
Proof.
  split; [reflexivity|]. split; [reflexivity|]. split; [done|].
  split; [reflexivity|]. vm_compute. discriminate.
Qed.

(** ** The handlers *)

(** Building [searchParams] never touches the state. *)
Lemma build_searchParams_state query w :
  snd (build_searchParams query w) = w.
Proof.
  unfold build_searchParams, call_parseInt, mbind, M_bind, mret, M_ret.
  destruct (parseInt (default (JNum 20) _)); [|done].
  destruct (parseInt (default (JNum 0) _)); [|done].
  destruct (truthy _); [|done].
  destruct (default _ (query !! "q")); cbn; try done.
  by destruct (bool_decide _).
Qed.

(** What [build_searchParams] does: [parseInt(limit)] and
    [parseInt(offset)] come first and may throw, then the value of [q]
    decides. *)
Lemma build_searchParams_cases query w :
  build_searchParams query w =
    match parseInt (default (JNum 20) (query !! "limit")),
          parseInt (default (JNum 0) (query !! "offset")) with
    | Some limit, Some offset =>
        match default (JStr (lit "")) (query !! "q") with
        | JStr s =>
            (Return (<["category_ids" :=
                       default (JStr CLOTHING_CATEGORY_ID) (query !! "category")]>
                       (if bool_decide (trim s ≠ [])
                        then <["q" := JStr (trim s)]>
                               (<["offset" := offset]> (<["limit" := limit]> ∅))
                        else <["offset" := offset]> (<["limit" := limit]> ∅))),
             w)
        | v =>
            if truthy v
            then (Throw (new_Error (lit "q.trim is not a function")), w)
            else (Return (<["category_ids" :=
                            default (JStr CLOTHING_CATEGORY_ID) (query !! "category")]>
                            (<["offset" := offset]> (<["limit" := limit]> ∅))),
                  w)
        end
    | _, _ => (Throw (new_Error (lit "Cannot convert object to primitive value")), w)
    end.
Proof.
  unfold build_searchParams, call_parseInt, mbind, M_bind, mret, M_ret.
  destruct (parseInt (default (JNum 20) _)) as [limit|]; [|done].
  destruct (parseInt (default (JNum 0) _)) as [offset|]; [|done].
  destruct (default (JStr (lit "")) (query !! "q")) as [| |b|[z|i]| |s|l|l];
    cbn [truthy call_trim throw]; unfold mret, M_ret; try done.
  - by destruct b.
  - by destruct (negb (z =? 0)).
  - destruct s as [|c s]; [done|]. change (lit "") with (@nil N).
    by destruct (bool_decide _).
Qed.

(** What [send] does. *)
Lemma send_valid r w :
  100 ≤ reply_status r ≤ 999 → send r w = (Return r, w).
Proof.
  intros [Hlo Hhi]. unfold send.
  by rewrite (proj2 (Z.leb_le _ _) Hlo), (proj2 (Z.leb_le _ _) Hhi).
Qed.

Lemma send_invalid r w :
  reply_status r < 100 ∨ 999 < reply_status r →
  ∃ error, send r w = (Throw error, w).
Proof.
  intros H. unfold send.
  destruct (Z.leb_spec 100 (reply_status r)), (Z.leb_spec (reply_status r) 999);
    cbn [andb]; try (by eexists); lia.
Qed.


(** C6. For a missing or empty [itemId] the item handler answers 400 with an
    [error] body and leaves the state as it was, whatever the time and the
    network: the cache is neither read nor written and nothing is sent. *)
Theorem item_handler_rejects_empty_id env itemId now net w :
  itemId = None ∨ itemId = Some [] →
  item_handler env itemId now net w
  = (Return {| reply_status := 400;
               reply_body := JObj [(lit "error",
                                    JStr (lit "eBay Item ID mancante nell'URL."))] |},
     w).
Proof. by intros [-> | ->]. Qed.

Lemma item_handler_rejects_empty_id_witness :
  item_handler Scenario.sandbox_env (Some (lit "")) 0 (Scenario.healthy "tok") initial_world
  = (Return {| reply_status := 400;
               reply_body := JObj [(lit "error",
                                    JStr (lit "eBay Item ID mancante nell'URL."))] |},
     initial_world).
Proof.
  apply item_handler_rejects_empty_id. right. reflexivity.
Defined.

(** The search handler when a token is available and the marketplace call
    settles. *)
Lemma search_handler_forwards env query now net w params token w1 :
  build_searchParams query w = (Return params, w) →
  getEbayToken env now net w = (Return token, w1) →
  search_handler env query now net w =
    let call := GET (EBAY_BROWSE_URL env ++ lit "/item_summary/search")
                    (Bearer token) (marketplace_header env) (Some params) in
    (Return (match browse_endpoint net call with
             | Fulfilled body => res_json body
             | Rejected error => error_reply search_error_message error
             end),
     log_request call w1).
Proof.
  intros Hb Hg. unfold search_handler, mbind, M_bind at 1. rewrite Hb.
  unfold try_catch, M_bind. rewrite Hg. unfold await.
  by destruct (browse_endpoint net _).
Qed.

(** The search handler when no token can be had: the error thrown by
    [getEbayToken] lands in the [catch] block. *)
Lemma search_handler_without_token env query now net w params error w1 :
  build_searchParams query w = (Return params, w) →
  getEbayToken env now net w = (Throw error, w1) →
  search_handler env query now net w
  = (Return (error_reply search_error_message error), w1).
Proof.
  intros Hb Hg. unfold search_handler, mbind, M_bind at 1. rewrite Hb.
  unfold try_catch, M_bind. by rewrite Hg.
Qed.

Lemma item_handler_forwards env (itemId : jsstring) now net w token w1 :
  itemId ≠ [] →
  getEbayToken env now net w = (Return token, w1) →
  item_handler env (Some itemId) now net w =
    let call := GET (EBAY_BROWSE_URL env ++ lit "/item/" ++ itemId)
                    (Bearer token) (marketplace_header env) None in
    (Return (match browse_endpoint net call with
             | Fulfilled body => res_json body
             | Rejected error => error_reply item_error_message error
             end),
     log_request call w1).
Proof.
  intros Hne Hg. unfold item_handler. destruct itemId as [|c s]; [done|].
  cbn [str_truthy negb default]. unfold try_catch, mbind, M_bind. rewrite Hg.
  unfold await. by destruct (browse_endpoint net _).
Qed.

Lemma item_handler_without_token env (itemId : jsstring) now net w error w1 :
  itemId ≠ [] →
  getEbayToken env now net w = (Throw error, w1) →
  item_handler env (Some itemId) now net w
  = (Return (error_reply item_error_message error), w1).
Proof.
  intros Hne Hg. unfold item_handler. destruct itemId as [|c s]; [done|].
  cbn [str_truthy negb default]. unfold try_catch, mbind, M_bind. by rewrite Hg.
Qed.

(** What a successful run of [build_searchParams] has done. *)
Lemma build_searchParams_returned query w params w' :
  build_searchParams query w = (Return params, w') →
  w' = w
  ∧ ∃ limit offset,
      parseInt (default (JNum 20) (query !! "limit")) = Some limit
      ∧ parseInt (default (JNum 0) (query !! "offset")) = Some offset
      ∧ ((∃ s, default (JStr (lit "")) (query !! "q") = JStr s
               ∧ params
                 = <["category_ids" :=
                     default (JStr CLOTHING_CATEGORY_ID) (query !! "category")]>
                     (if bool_decide (trim s ≠ [])
                      then <["q" := JStr (trim s)]>
                             (<["offset" := offset]> (<["limit" := limit]> ∅))
                      else <["offset" := offset]> (<["limit" := limit]> ∅)))
         ∨ ((∀ s, default (JStr (lit "")) (query !! "q") ≠ JStr s)
            ∧ truthy (default (JStr (lit "")) (query !! "q")) = false
            ∧ params
              = <["category_ids" :=
                  default (JStr CLOTHING_CATEGORY_ID) (query !! "category")]>
                  (<["offset" := offset]> (<["limit" := limit]> ∅)))).
Proof.
  intros Hb. pose proof (build_searchParams_cases query w) as Hcases.
  rewrite Hb in Hcases.
  destruct (parseInt (default (JNum 20) _)) as [limit|]; [|done].
  destruct (parseInt (default (JNum 0) _)) as [offset|]; [|done].
  destruct (default (JStr (lit "")) (query !! "q")) as [| |b|[z|i]| |s|l|l];
    cbn [truthy] in Hcases |- *;
    try (destruct b); try (destruct (negb (z =? 0)));
    try discriminate Hcases; injection Hcases as -> ->;
    (split; [done|]); exists limit, offset; (split; [done|]); (split; [done|]);
    try (right; by repeat split).
  left. by exists s.
Qed.

(** ** [String.prototype.trim] *)

Lemma trim_start_head s c r : trim_start s = c :: r → is_js_space c = false.
Proof.
  induction s as [|a s IH]; [done|]. cbn [trim_start].
  destruct (is_js_space a) eqn:Ea; [done|]. by intros [= <- _].
Qed.

Lemma trim_start_split s :
  ∃ ws, s = ws ++ trim_start s ∧ Forall (λ c, is_js_space c = true) ws.
Proof.
  induction s as [|a s (ws & IH & Hws)]; [by exists []|]. cbn [trim_start].
  destruct (is_js_space a) eqn:Ea; [|by exists []].
  exists (a :: ws). split; [cbn; by rewrite <- IH|by constructor].
Qed.

Lemma trim_end_split s :
  ∃ ws, s = trim_end s ++ ws ∧ Forall (λ c, is_js_space c = true) ws.
Proof.
  unfold trim_end. destruct (trim_start_split (rev s)) as (ws & Hs & Hws).
  exists (rev ws). split.
  - rewrite <- List.rev_app_distr, <- Hs. by rewrite List.rev_involutive.
  - apply Forall_forall. intros c Hc. apply list_elem_of_In, List.in_rev in Hc.
    rewrite Forall_forall in Hws. by apply Hws, list_elem_of_In.
Qed.

Lemma trim_end_last s r c : trim_end s = r ++ [c] → is_js_space c = false.
Proof.
  unfold trim_end. intros H. apply (f_equal (@rev N)) in H.
  rewrite List.rev_involutive, List.rev_app_distr in H. cbn [rev app] in H.
  by eapply trim_start_head.
Qed.

Lemma trim_head s c r : trim s = c :: r → is_js_space c = false.
Proof.
  unfold trim. intros H. destruct (trim_end_split (trim_start s)) as (ws & Hws & _).
  rewrite H in Hws. by eapply trim_start_head.
Qed.







(** The token failure as the search handler reports it: the error thrown by
    the [catch] block of [getEbayToken] is a new [Error] that carries a
    message only, so the reply has status 500 whatever the identity endpoint
    answered. *)
Lemma search_handler_token_failure env query now net w params error :
  build_searchParams query w = (Return params, w) →
  cached_token now w = None →
  credentials_configured env →
  identity_endpoint net (token_request env (client_credentials env)) = Rejected error →
  fst (search_handler env query now net w)
  = Return {| reply_status := 500;
              reply_body :=
                JObj [(lit "message", JStr search_error_message);
                      (lit "details", JStr (token_failure_message env error))] |}.
Proof.
  intros Hb Hc Hk Hrej.
  by rewrite (search_handler_without_token _ _ _ _ _ _ _ _ Hb
                (getEbayToken_rejected _ _ _ _ _ Hc Hk Hrej)).
Qed.

(** C1, on the code.  The identity endpoint answers 401 to the grant request
    of a fresh process with sandbox credentials: the search handler replies
    500, not 401, and [details] is the message of the wrapping error, not the
    payload of the identity endpoint. *)
Theorem search_reply_when_identity_answers_401 :
  search_handler Scenario.sandbox_env ∅ 0 Scenario.identity_401 initial_world
  = (Return {| reply_status := 500;
               reply_body :=
                 JObj [(lit "message",
                        JStr (lit "Errore durante la comunicazione con l'API di eBay."));
                       (lit "details",
                        JStr (lit ("Impossibile ottenere il token di accesso eBay per Sandbox. "
                                   +:+ "Dettagli: Request failed with status code 401")))] |},
     {| ebayToken := None; tokenExpiryTime := 0;
        outbound := [token_request Scenario.sandbox_env
                       (client_credentials Scenario.sandbox_env)] |})
  ∧ response (http_failure 401 Scenario.invalid_client)
    = Some {| status := 401; data := Scenario.invalid_client |}.
Proof. split; reflexivity. Qed.

(** ** The cache over the life of the process *)

(** When [searchParams] cannot be built, the handler stops there. *)
Lemma search_handler_type_error env query now net w error :
  fst (build_searchParams query w) = Throw error →
  search_handler env query now net w = (Throw error, w).
Proof.
  intros Hb. pose proof (build_searchParams_state query w) as Hw.
  unfold search_handler, mbind, M_bind at 1.
  destruct (build_searchParams query w) as [[params|e] w0]; cbn in *; congruence.
Qed.

(** The handlers change the cache only through [getEbayToken]. *)
Lemma search_handler_cache env query now net w :
  let w' := snd (search_handler env query now net w) in
  (ebayToken w' = ebayToken w ∧ tokenExpiryTime w' = tokenExpiryTime w)
  ∨ (ebayToken w' = ebayToken (snd (getEbayToken env now net w))
     ∧ tokenExpiryTime w' = tokenExpiryTime (snd (getEbayToken env now net w))).
Proof.
  pose proof (build_searchParams_state query w) as Hw.
  destruct (build_searchParams query w) as [[params|e] w0] eqn:Hb; cbn in Hw; subst w0.
  - right. destruct (getEbayToken env now net w) as [[token|error] w1] eqn:Hg.
    + rewrite (search_handler_forwards _ _ _ _ _ _ _ _ Hb Hg). split; reflexivity.
    + by rewrite (search_handler_without_token _ _ _ _ _ _ _ _ Hb Hg).
  - left. rewrite (search_handler_type_error env query now net w e); [done|].
    by rewrite Hb.
Qed.

Lemma item_handler_cache env itemId now net w :
  let w' := snd (item_handler env itemId now net w) in
  (ebayToken w' = ebayToken w ∧ tokenExpiryTime w' = tokenExpiryTime w)
  ∨ (ebayToken w' = ebayToken (snd (getEbayToken env now net w))
     ∧ tokenExpiryTime w' = tokenExpiryTime (snd (getEbayToken env now net w))).
Proof.
  destruct itemId as [[|c s]|];
    [left; split; reflexivity| |left; split; reflexivity].
  right. destruct (getEbayToken env now net w) as [[token|error] w1] eqn:Hg.
  - rewrite (item_handler_forwards env (c :: s) now net w token w1 (ltac:(done)) Hg). split; reflexivity.
  - by rewrite (item_handler_without_token env (c :: s) now net w error w1 (ltac:(done)) Hg).
Qed.

(** Without credentials the cache is never filled: it is empty in every
    state the process can reach. *)
Lemma unconfigured_cache_is_empty env w :
  reachable env w →
  ¬ credentials_configured env →
  ebayToken w = None ∧ tokenExpiryTime w = 0.
Proof.
  intros Hreach Hk.
  assert (∀ w0 now net, ebayToken w0 = None ∧ tokenExpiryTime w0 = 0 →
            snd (getEbayToken env now net w0) = w0) as Hsame.
  { intros w0 now net [Ht _]. rewrite getEbayToken_unconfigured; [done| |done].
    apply cached_token_stale. by left. }
  induction Hreach as [|w now net _ IH|w query now net _ IH|w itemId now net _ IH
                       |w r _ _ Hc|w now g _ _ Hc|w e _ _ Hc]; try done.
  - by rewrite Hsame.
  - destruct (search_handler_cache env query now net w) as [[-> ->]|[-> ->]];
      [done|by rewrite Hsame].
  - destruct (item_handler_cache env itemId now net w) as [[-> ->]|[-> ->]];
      [done|by rewrite Hsame].
Qed.

(** C3. In every state the process can reach, an invocation of
    [getEbayToken] that fails, for missing credentials or for a failed call
    to the identity endpoint, ends with [ebayToken] null and
    [tokenExpiryTime] zero; so does the [catch] block of an invocation that
    resumes after others have run. *)
Theorem failed_acquisition_leaves_cache_empty env w :
  reachable env w →
  (∀ now net error w',
     getEbayToken env now net w = (Throw error, w') →
     ebayToken w' = None ∧ tokenExpiryTime w' = 0)
  ∧ (∀ error, ebayToken (snd (token_refused env error w)) = None
              ∧ tokenExpiryTime (snd (token_refused env error w)) = 0).
Proof.
  intros Hreach. split; [|done].
  intros now net error w' Hfail.
  pose proof (getEbayToken_cases env now net w) as Hrun. rewrite Hfail in Hrun.
  inversion Hrun as [tok Hc|Hc Hk|g Hc Hk Hg|e Hc Hk Hg]; subst.
  - by apply (unconfigured_cache_is_empty env).
  - done.
Qed.

Lemma failed_acquisition_leaves_cache_empty_witness :
  (ebayToken Scenario.after_first_token = Some (lit "tok")
   ∧ getEbayToken Scenario.sandbox_env 7200000 Scenario.identity_401
       Scenario.after_first_token
     = (Throw (new_Error (token_failure_message Scenario.sandbox_env
                            (http_failure 401 Scenario.invalid_client))),
        Scenario.after_rejected_refresh)
   ∧ ebayToken Scenario.after_rejected_refresh = None
   ∧ tokenExpiryTime Scenario.after_rejected_refresh = 0)
  ∧ (getEbayToken Scenario.production_env_without_credentials 0 (Scenario.healthy "tok")
       initial_world
     = (Throw (new_Error missing_credentials_message), initial_world)
     ∧ ebayToken initial_world = None
     ∧ tokenExpiryTime initial_world = 0).
Proof.
  split.
  - split; [reflexivity|]. split; [reflexivity|].
    apply (proj1 (failed_acquisition_leaves_cache_empty Scenario.sandbox_env
                    Scenario.after_first_token
                    (reachable_getEbayToken _ _ 0 (Scenario.healthy "tok")
                       (reachable_initial _)))
             7200000 Scenario.identity_401
             (new_Error (token_failure_message Scenario.sandbox_env
                           (http_failure 401 Scenario.invalid_client)))).
    reflexivity.
  - split; [reflexivity|].
    apply (proj1 (failed_acquisition_leaves_cache_empty
                    Scenario.production_env_without_credentials initial_world
                    (reachable_initial _))
             0 (Scenario.healthy "tok") (new_Error missing_credentials_message)).
    reflexivity.
Defined.

(** * Further properties of the token cache *)

(** An error thrown by [getEbayToken] is one of its two [new Error(...)]:
    it has a message and no [response]. *)
Lemma getEbayToken_throws_plain env now net w error w' :
  getEbayToken env now net w = (Throw error, w') →
  response error = None
  ∧ (message error = missing_credentials_message
     ∨ ∃ cause, message error = token_failure_message env cause).
Proof.
  intros Hfail. pose proof (getEbayToken_cases env now net w) as Hrun.
  rewrite Hfail in Hrun.
  inversion Hrun as [tok Hc|Hc Hk|g Hc Hk Hg|e Hc Hk Hg]; subst; cbn; eauto.
Qed.

(** X13. Whenever [getEbayToken] returns a token, that token is the one the
    cache holds afterwards, and its expiry is either more than the buffer
    window ahead (served from the cache) or [now + expires_in * 1000] for the
    grant just received. *)
Theorem returned_token_is_cached_token env now net w tok w' :
  getEbayToken env now net w = (Return tok, w') →
  ebayToken w' = Some tok
  ∧ ((w' = w ∧ tokenExpiryTime w' > now + bufferWindow)
     ∨ (∃ g, identity_endpoint net (token_request env (client_credentials env))
             = Fulfilled g
             ∧ tok = access_token g
             ∧ tokenExpiryTime w' = now + expires_in g * 1000
             ∧ outbound w'
               = outbound w ++ [token_request env (client_credentials env)])).
Proof.
  intros Hret. pose proof (getEbayToken_cases env now net w) as Hrun.
  rewrite Hret in Hrun.
  inversion Hrun as [tok' Hc|Hc Hk|g Hc Hk Hg|e Hc Hk Hg]; subst.
  - apply cached_token_fresh in Hc as (Ht & _ & Hgt). split; [done|]. by left.
  - split; [done|]. right. by exists g.
Qed.

Lemma returned_token_is_cached_token_witness :
  ebayToken Scenario.after_first_token = Some (lit "tok")
  ∧ ((Scenario.after_first_token = initial_world
      ∧ tokenExpiryTime Scenario.after_first_token > 0 + bufferWindow)
     ∨ (∃ g, identity_endpoint (Scenario.healthy "tok")
               (token_request Scenario.sandbox_env
                  (client_credentials Scenario.sandbox_env)) = Fulfilled g
             ∧ lit "tok" = access_token g
             ∧ tokenExpiryTime Scenario.after_first_token = 0 + expires_in g * 1000
             ∧ outbound Scenario.after_first_token
               = outbound initial_world
                 ++ [token_request Scenario.sandbox_env
                       (client_credentials Scenario.sandbox_env)])).
Proof.
  apply (returned_token_is_cached_token Scenario.sandbox_env 0 (Scenario.healthy "tok")
           initial_world).
  reflexivity.
Defined.

(** X2. In every state the process can reach, also with overlapping
    invocations, the two cache variables go together: when [ebayToken] is
    null, [tokenExpiryTime] is 0. *)
Theorem cache_token_and_expiry_paired env w :
  reachable env w →
  ebayToken w = None →
  tokenExpiryTime w = 0.
Proof.
  intros Hreach.
  assert (∀ w0 now net, (ebayToken w0 = None → tokenExpiryTime w0 = 0) →
            ebayToken (snd (getEbayToken env now net w0)) = None →
            tokenExpiryTime (snd (getEbayToken env now net w0)) = 0) as Hstep.
  { intros w0 now net IH.
    destruct (getEbayToken_cases env now net w0) as [tok Hc|Hc Hk|g Hc Hk Hg|e Hc Hk Hg];
      cbn; done. }
  induction Hreach as [|w now net _ IH|w query now net _ IH|w itemId now net _ IH
                       |w r _ IH Hc|w now g _ IH Hc|w e _ IH Hc]; try done.
  - by apply Hstep.
  - destruct (search_handler_cache env query now net w) as [[-> ->]|[-> ->]];
      [done|by apply Hstep].
  - destruct (item_handler_cache env itemId now net w) as [[-> ->]|[-> ->]];
      [done|by apply Hstep].
Qed.

Lemma cache_token_and_expiry_paired_witness :
  tokenExpiryTime Scenario.after_rejected_refresh = 0.
Proof.
  apply (cache_token_and_expiry_paired Scenario.sandbox_env).
  - apply reachable_getEbayToken, reachable_getEbayToken, reachable_initial.
  - reflexivity.
Defined.

(** X11. A failure is not remembered.  After an invocation that failed, the
    next one, at any time, tries again: with credentials it sends the identity
    request; without them it throws the missing-credentials error again and
    sends nothing. *)
Theorem failure_is_not_cached env w now net error w' :
  reachable env w →
  getEbayToken env now net w = (Throw error, w') →
  ∀ now' net',
    (credentials_configured env →
     outbound (snd (getEbayToken env now' net' w'))
     = outbound w' ++ [token_request env (client_credentials env)])
    ∧ (¬ credentials_configured env →
       getEbayToken env now' net' w'
       = (Throw (new_Error missing_credentials_message), w')).
Proof.
  intros Hreach Hfail now' net'.
  assert (ebayToken w' = None) as Hempty.
  { pose proof (getEbayToken_cases env now net w) as Hrun. rewrite Hfail in Hrun.
    inversion Hrun as [tok Hc|Hc Hk|g Hc Hk Hg|e Hc Hk Hg]; subst; [|done].
    by apply (unconfigured_cache_is_empty env). }
  assert (cached_token now' w' = None) as Hmiss.
  { apply cached_token_stale. by left. }
  split; intros Hk.
  - destruct (identity_endpoint net' (token_request env (client_credentials env)))
      as [g|e] eqn:Hg.
    + by rewrite (getEbayToken_granted _ _ _ _ _ Hmiss Hk Hg).
    + by rewrite (getEbayToken_rejected _ _ _ _ _ Hmiss Hk Hg).
  - by apply getEbayToken_unconfigured.
Qed.

Lemma failure_is_not_cached_witness :
  outbound (snd (getEbayToken Scenario.sandbox_env 7200001 (Scenario.healthy "tok2")
                   Scenario.after_rejected_refresh))
  = outbound Scenario.after_rejected_refresh
    ++ [token_request Scenario.sandbox_env (client_credentials Scenario.sandbox_env)].
Proof.
  apply (failure_is_not_cached Scenario.sandbox_env Scenario.after_first_token
           7200000 Scenario.identity_401
           (new_Error (token_failure_message Scenario.sandbox_env
                         (http_failure 401 Scenario.invalid_client)))
           Scenario.after_rejected_refresh).
  - apply reachable_getEbayToken, reachable_initial.
  - reflexivity.
  - split; reflexivity.
Defined.

(** X12. A grant that cannot pass the cache test is never served from the
    cache: when the granted token is the empty string, or its lifetime is at
    most the 300 seconds of the buffer, every later invocation sends a new
    identity request. *)
Theorem short_lived_token_never_served env w0 net0 t0 g t net :
  cached_token t0 w0 = None →
  credentials_configured env →
  identity_endpoint net0 (token_request env (client_credentials env)) = Fulfilled g →
  access_token g = [] ∨ (expires_in g ≤ tokenBufferSeconds ∧ t0 ≤ t) →
  outbound (snd (getEbayToken env t net (snd (getEbayToken env t0 net0 w0))))
  = outbound (snd (getEbayToken env t0 net0 w0))
    ++ [token_request env (client_credentials env)].
Proof.
  intros Hc Hk Hg Hshort. rewrite (getEbayToken_granted _ _ _ _ _ Hc Hk Hg). cbn [snd].
  set (w1 := {| ebayToken := _ |}).
  assert (cached_token t w1 = None) as Hmiss.
  { destruct (cached_token t w1) as [tok|] eqn:E; [|done].
    apply cached_token_fresh in E as (Htok & Hne & Hgt). cbn in Htok, Hgt.
    unfold bufferWindow in Hgt. injection Htok as <-.
    destruct Hshort as [Hs|[Hs Ht]]; [done|]. unfold tokenBufferSeconds in *. lia. }
  destruct (identity_endpoint net (token_request env (client_credentials env)))
    as [g'|e] eqn:Hg'.
  - by rewrite (getEbayToken_granted _ _ _ _ _ Hmiss Hk Hg').
  - by rewrite (getEbayToken_rejected _ _ _ _ _ Hmiss Hk Hg').
Qed.

Lemma short_lived_token_never_served_witness :
  outbound (snd (getEbayToken Scenario.sandbox_env 0 Edge.short_grant
                   (snd (getEbayToken Scenario.sandbox_env 0 Edge.short_grant
                           initial_world))))
  = outbound (snd (getEbayToken Scenario.sandbox_env 0 Edge.short_grant initial_world))
    ++ [token_request Scenario.sandbox_env (client_credentials Scenario.sandbox_env)].
Proof.
  apply (short_lived_token_never_served Scenario.sandbox_env initial_world
           Edge.short_grant 0 {| access_token := lit "tok"; expires_in := 300 |}).
  - reflexivity.
  - split; reflexivity.
  - reflexivity.
  - right. split; [unfold tokenBufferSeconds; cbn; lia | lia].
Defined.

(** * Further properties of the handlers *)

(** X1. For a non-empty [itemId], when a token is available and the
    marketplace answers the item call with success, the item handler replies
    200 with the upstream body unchanged; the one call it sends goes to
    [<browse>/item/<itemId>] with the token as bearer and no query
    parameters. *)
Theorem item_handler_passthrough env (itemId : jsstring) now net w token w1 body :
  itemId ≠ [] →
  getEbayToken env now net w = (Return token, w1) →
  browse_endpoint net
    (GET (EBAY_BROWSE_URL env ++ lit "/item/" ++ itemId)
         (Bearer token) (marketplace_header env) None)
  = Fulfilled body →
  item_handler env (Some itemId) now net w
  = (Return {| reply_status := 200; reply_body := body |},
     log_request
       (GET (EBAY_BROWSE_URL env ++ lit "/item/" ++ itemId)
            (Bearer token) (marketplace_header env) None)
       w1).
Proof.
  intros Hne Hg Hok. rewrite (item_handler_forwards _ _ _ _ _ _ _ Hne Hg). cbn zeta.
  by rewrite Hok.
Qed.

Lemma item_handler_passthrough_witness :
  item_handler Scenario.sandbox_env (Some (lit "123")) 0 (Scenario.healthy "tok")
    initial_world
  = (Return {| reply_status := 200; reply_body := Scenario.search_results |},
     log_request
       (GET (EBAY_BROWSE_URL Scenario.sandbox_env ++ lit "/item/" ++ lit "123")
            (Bearer (lit "tok")) (marketplace_header Scenario.sandbox_env) None)
       Scenario.after_first_token).
Proof.
  apply item_handler_passthrough.
  - discriminate.
  - reflexivity.
  - reflexivity.
Defined.

(** ** When a callback ends without a reply *)

(** The reply of a [catch] block is refused by [send] exactly when the
    upstream answered with a status, not 0, outside 100..999. *)
Lemma send_error_reply_throws msg error w :
  (∃ thrown w', send (error_reply msg error) w = (Throw thrown, w'))
  ↔ ∃ r, response error = Some r ∧ status r ≠ 0
         ∧ (status r < 100 ∨ 999 < status r).
Proof.
  split.
  - intros (thrown & w' & Hsend).
    destruct (decide (100 ≤ reply_status (error_reply msg error) ≤ 999)) as [Hv|Hv].
    { rewrite (send_valid _ _ Hv) in Hsend. discriminate. }
    revert Hv. unfold error_reply, error_status. cbn [reply_status].
    destruct (response error) as [r|]; [|lia].
    destruct (Z.eqb_spec (status r) 0); [lia|]. intros Hv. exists r.
    split; [done|]. split; [done|]. lia.
  - intros (r & Hr & H0 & Hout).
    destruct (send_invalid (error_reply msg error) w) as [thrown Hthrown].
    + unfold error_reply, error_status. cbn [reply_status]. rewrite Hr.
      by destruct (Z.eqb_spec (status r) 0).
    + by exists thrown, w.
Qed.

(** An error thrown by [getEbayToken] gives a reply that [send] accepts. *)
Lemma send_token_failure_reply env now net w msg error w1 :
  getEbayToken env now net w = (Throw error, w1) →
  send (error_reply msg error) w1 = (Return (error_reply msg error), w1).
Proof.
  intros Hfail. destruct (getEbayToken_throws_plain _ _ _ _ _ _ Hfail) as [Hplain _].
  apply send_valid. unfold error_reply, error_status. cbn [reply_status].
  rewrite Hplain. lia.
Qed.

(** X4. The callback of the item route ends with an error instead of a
    reply exactly when the identifier is not empty, a token was available,
    and the marketplace call was rejected with an upstream status, not 0,
    outside 100..999: the [catch] block passes that status to [res.status],
    which refuses it.  In every other case a reply is sent. *)
Theorem item_route_throws_iff_status_refused env itemId now net w :
  ((∃ thrown w', item_route env itemId now net w = (Throw thrown, w'))
   ↔ ∃ (id : jsstring) token w1 error r,
       itemId = Some id ∧ id ≠ []
       ∧ getEbayToken env now net w = (Return token, w1)
       ∧ browse_endpoint net
           (GET (EBAY_BROWSE_URL env ++ lit "/item/" ++ id)
                (Bearer token) (marketplace_header env) None)
         = Rejected error
       ∧ response error = Some r ∧ status r ≠ 0
       ∧ (status r < 100 ∨ 999 < status r))
  ∧ ((∃ thrown w', item_route env itemId now net w = (Throw thrown, w'))
     ∨ ∃ r w', item_route env itemId now net w = (Return r, w')).
Proof.
  assert (∀ o : result reply * world,
            (∃ thrown w', o = (Throw thrown, w')) ∨ (∃ r w', o = (Return r, w')))
    as Htotal.
  { intros [[r|thrown] w']; [right|left]; by eexists _, _. }
  split; [|apply Htotal].
  destruct itemId as [[|c s]|].
  - split; [intros (thrown & w' & H); discriminate H|].
    by intros (id & token & w1 & error & r & [= <-] & Hne & _).
  - destruct (getEbayToken env now net w) as [[token|failure] w1] eqn:Hg.
    + unfold item_route, mbind, M_bind.
      rewrite (item_handler_forwards env (c :: s) now net w token w1 (ltac:(done)) Hg).
      cbn zeta.
      destruct (browse_endpoint net _) as [body|error] eqn:Hcall.
      * split; [intros (thrown & w' & H); by rewrite send_valid in H|].
        intros (id & token' & w1' & error & r & [= <-] & _ & [= <- <-] & Hrej & _).
        rewrite Hcall in Hrej. discriminate.
      * rewrite send_error_reply_throws. split.
        -- intros (r & Hr & H0 & Hout). by exists (c :: s), token, w1, error, r.
        -- intros (id & token' & w1' & error' & r & [= <-] & _ & [= <- <-] & Hrej & Hr).
           rewrite Hcall in Hrej. injection Hrej as <-. by exists r.
    + unfold item_route, mbind, M_bind.
      rewrite (item_handler_without_token env (c :: s) now net w failure w1
                 (ltac:(done)) Hg).
      rewrite (send_token_failure_reply _ _ _ _ _ _ _ Hg).
      split; [intros (thrown & w' & H); discriminate H|].
      by intros (id & token & w1' & error & r & _ & _ & [=] & _).
  - split; [intros (thrown & w' & H); discriminate H|].
    by intros (id & token & w1 & error & r & [=] & _).
Qed.

Lemma item_route_throws_iff_status_refused_witness :
  ∃ thrown w', item_route Scenario.sandbox_env (Some (lit "123")) 0 Edge.browse_099
                 initial_world = (Throw thrown, w').
Proof.
  apply (proj1 (item_route_throws_iff_status_refused Scenario.sandbox_env
                  (Some (lit "123")) 0 Edge.browse_099 initial_world)).
  exists (lit "123"), (lit "tok"), Scenario.after_first_token,
    (http_failure 99 JNull), {| status := 99; data := JNull |}.
  split; [reflexivity|]. split; [discriminate|]. split; [reflexivity|].
  split; [reflexivity|]. split; [reflexivity|]. split; [discriminate|]. left. reflexivity.
Defined.

(** When [build_searchParams] throws. *)
Lemma build_searchParams_thrown query w :
  (∃ thrown, build_searchParams query w = (Throw thrown, w))
  ↔ parseInt (default (JNum 20) (query !! "limit")) = None
    ∨ parseInt (default (JNum 0) (query !! "offset")) = None
    ∨ ∃ v, query !! "q" = Some v ∧ truthy v = true ∧ ∀ s, v ≠ JStr s.
Proof.
  pose proof (build_searchParams_cases query w) as Hc.
  destruct (parseInt (default (JNum 20) _)) as [limit|];
    [|rewrite Hc; split; [by left|by eexists]].
  destruct (parseInt (default (JNum 0) _)) as [offset|];
    [|rewrite Hc; split; [by right; left|by eexists]].
  split.
  - intros [thrown H]. rewrite H in Hc. right; right.
    destruct (query !! "q") as [v|] eqn:Eq; cbn [default from_option id] in Hc;
      [|discriminate Hc].
    exists v. split; [done|].
    destruct (truthy v) eqn:Ht.
    + split; [done|]. intros s ->. discriminate Hc.
    + destruct v as [| |b|[z|i]| |s|l|l]; cbn [truthy] in Ht, Hc; try discriminate Ht;
        try rewrite Ht in Hc; discriminate Hc.
  - intros [H|[H|(v & Hq & Ht & Hns)]]; [done|done|].
    rewrite Hq in Hc. cbn [default from_option id] in Hc. rewrite Hc.
    destruct v as [| |b|[z|i]| |s|l|l]; cbn [truthy] in Ht |- *; try rewrite Ht;
      try discriminate Ht; try (by eexists).
    by destruct (Hns s).
Qed.

(** X3. The callback of the search route ends with an error instead of a
    reply exactly in four cases: [parseInt(limit)] throws, [parseInt(offset)]
    throws (the value is an object whose own property [toString] shadows the
    method, or an array holding one), [q] is a truthy value that is not a
    string (an array or an object), or the marketplace call was rejected with
    an upstream status, not 0, outside 100..999.  In the first three cases
    the error is thrown before the [try] block: nothing has been sent and
    the state is untouched. *)
Theorem search_route_throws_iff env query now net w :
  ((∃ thrown w', search_route env query now net w = (Throw thrown, w'))
   ↔ parseInt (default (JNum 20) (query !! "limit")) = None
     ∨ parseInt (default (JNum 0) (query !! "offset")) = None
     ∨ (∃ v, query !! "q" = Some v ∧ truthy v = true ∧ ∀ s, v ≠ JStr s)
     ∨ ∃ params token w1 error r,
         build_searchParams query w = (Return params, w)
         ∧ getEbayToken env now net w = (Return token, w1)
         ∧ browse_endpoint net
             (GET (EBAY_BROWSE_URL env ++ lit "/item_summary/search")
                  (Bearer token) (marketplace_header env) (Some params))
           = Rejected error
         ∧ response error = Some r ∧ status r ≠ 0
         ∧ (status r < 100 ∨ 999 < status r))
  ∧ (parseInt (default (JNum 20) (query !! "limit")) = None
     ∨ parseInt (default (JNum 0) (query !! "offset")) = None
     ∨ (∃ v, query !! "q" = Some v ∧ truthy v = true ∧ ∀ s, v ≠ JStr s) →
     ∃ thrown, search_route env query now net w = (Throw thrown, w)).
Proof.
  assert (parseInt (default (JNum 20) (query !! "limit")) = None
          ∨ parseInt (default (JNum 0) (query !! "offset")) = None
          ∨ (∃ v, query !! "q" = Some v ∧ truthy v = true ∧ ∀ s, v ≠ JStr s) →
          ∃ thrown, search_route env query now net w = (Throw thrown, w)) as Hearly.
  { intros Hbad. apply (build_searchParams_thrown query w) in Hbad as [thrown Hb].
    exists thrown. unfold search_route, mbind, M_bind at 1.
    rewrite (search_handler_type_error env query now net w thrown); [done|].
    by rewrite Hb. }
  split; [|done].
  pose proof (build_searchParams_state query w) as Hw.
  destruct (build_searchParams query w) as [[params|thrown] w0] eqn:Hb;
    cbn [snd] in Hw; subst w0.
  - assert (¬ (parseInt (default (JNum 20) (query !! "limit")) = None
               ∨ parseInt (default (JNum 0) (query !! "offset")) = None
               ∨ (∃ v, query !! "q" = Some v ∧ truthy v = true ∧ ∀ s, v ≠ JStr s)))
      as Hok.
    { intros Hbad. apply (build_searchParams_thrown query w) in Hbad as [thrown Hthrown].
      congruence. }
    destruct (getEbayToken env now net w) as [[token|failure] w1] eqn:Hg.
    + unfold search_route, mbind, M_bind at 1.
      rewrite (search_handler_forwards _ _ _ _ _ _ _ _ Hb Hg). cbn zeta.
      destruct (browse_endpoint net _) as [body|error] eqn:Hcall.
      * split; [intros (thrown & w' & H); by rewrite send_valid in H|].
        intros [H|[H|[H|(params' & token' & w1' & error & r & [= <-] & [= <- <-]
                         & Hrej & _)]]];
          try (destruct Hok; by auto).
        rewrite Hcall in Hrej. discriminate.
      * rewrite send_error_reply_throws. split.
        -- intros (r & Hr & H0 & Hout). do 3 right.
           by exists params, token, w1, error, r.
        -- intros [H|[H|[H|(params' & token' & w1' & error' & r & [= <-] & [= <- <-]
                            & Hrej & Hr)]]];
             try (destruct Hok; by auto).
           rewrite Hcall in Hrej. injection Hrej as <-. by exists r.
    + unfold search_route, mbind, M_bind at 1.
      rewrite (search_handler_without_token _ _ _ _ _ _ _ _ Hb Hg).
      rewrite (send_token_failure_reply _ _ _ _ _ _ _ Hg).
      split; [intros (thrown' & w' & H); discriminate H|].
      intros [H|[H|[H|(params' & token & w1' & error & r & _ & [=] & _)]]];
        destruct Hok; by auto.
  - assert (∃ t, build_searchParams query w = (Throw t, w)) as Hthrown by by eexists.
    apply (build_searchParams_thrown query w) in Hthrown.
    split.
    + intros _. destruct Hthrown as [H|[H|H]]; auto.
    + intros _. destruct (Hearly Hthrown) as [t Ht]. by exists t, w.
Qed.

Lemma search_route_throws_iff_witness :
  ∃ thrown, search_route Scenario.sandbox_env Edge.shadowed_toString 0
              (Scenario.healthy "tok") initial_world = (Throw thrown, initial_world).
Proof.
  apply (proj2 (search_route_throws_iff Scenario.sandbox_env Edge.shadowed_toString 0
                  (Scenario.healthy "tok") initial_world)).
  left. reflexivity.
Defined.

(** X5. When [getEbayToken] throws, for either cause, both handlers reply
    500 with the fixed message and, as [details], the message of the thrown
    error; the state is the one [getEbayToken] left, so nothing is sent to
    the marketplace. *)
Theorem token_failure_replies_500 env now net w error w1 :
  getEbayToken env now net w = (Throw error, w1) →
  (∀ query params,
     build_searchParams query w = (Return params, w) →
     search_handler env query now net w
     = (Return {| reply_status := 500;
                  reply_body := JObj [(lit "message", JStr search_error_message);
                                      (lit "details", JStr (message error))] |},
        w1))
  ∧ (∀ itemId : jsstring,
       itemId ≠ [] →
       item_handler env (Some itemId) now net w
       = (Return {| reply_status := 500;
                    reply_body := JObj [(lit "message", JStr item_error_message);
                                        (lit "details", JStr (message error))] |},
          w1))
  ∧ (message error = missing_credentials_message
     ∨ ∃ cause, message error = token_failure_message env cause).
Proof.
  intros Hfail. destruct (getEbayToken_throws_plain _ _ _ _ _ _ Hfail) as [Hplain Hmsg].
  assert (∀ msg, error_reply msg error
                 = {| reply_status := 500;
                      reply_body := JObj [(lit "message", JStr msg);
                                          (lit "details", JStr (message error))] |})
    as Hreply.
  { intros msg. unfold error_reply, error_status, error_details. by rewrite Hplain. }
  split; [|split; [|done]].
  - intros query params Hb.
    by rewrite (search_handler_without_token _ _ _ _ _ _ _ _ Hb Hfail), Hreply.
  - intros itemId Hne.
    by rewrite (item_handler_without_token _ _ _ _ _ _ _ Hne Hfail), Hreply.
Qed.

Lemma token_failure_replies_500_witness :
  item_handler Scenario.production_env_without_credentials (Some (lit "123")) 0
    (Scenario.healthy "tok") initial_world
  = (Return {| reply_status := 500;
               reply_body := JObj [(lit "message", JStr item_error_message);
                                   (lit "details", JStr missing_credentials_message)] |},
     initial_world).
Proof.
  destruct (token_failure_replies_500 Scenario.production_env_without_credentials 0
              (Scenario.healthy "tok") initial_world
              (new_Error missing_credentials_message) initial_world eq_refl)
    as (_ & Hitem & _).
  apply (Hitem (lit "123")). discriminate.
Defined.

(** X10. With a fresh token in the cache, a request is served with one
    outbound call, the marketplace call carrying the cached token; the
    identity endpoint is not contacted and the cache is left as it was,
    whether or not credentials are configured. *)
Theorem warm_cache_request_sends_one_call env now net w tok :
  ebayToken w = Some tok →
  tok ≠ [] →
  tokenExpiryTime w > now + bufferWindow →
  (∀ query params,
     build_searchParams query w = (Return params, w) →
     snd (search_handler env query now net w)
     = log_request
         (GET (EBAY_BROWSE_URL env ++ lit "/item_summary/search")
              (Bearer tok) (marketplace_header env) (Some params))
         w)
  ∧ (∀ itemId : jsstring,
       itemId ≠ [] →
       snd (item_handler env (Some itemId) now net w)
       = log_request
           (GET (EBAY_BROWSE_URL env ++ lit "/item/" ++ itemId)
                (Bearer tok) (marketplace_header env) None)
           w).
Proof.
  intros Ht Hne Hgt.
  assert (getEbayToken env now net w = (Return tok, w)) as Hg.
  { apply getEbayToken_hit. by apply cached_token_fresh. }
  split.
  - intros query params Hb. by rewrite (search_handler_forwards _ _ _ _ _ _ _ _ Hb Hg).
  - intros itemId Hi. by rewrite (item_handler_forwards _ _ _ _ _ _ _ Hi Hg).
Qed.

Lemma warm_cache_request_sends_one_call_witness :
  snd (search_handler Scenario.sandbox_env ∅ 1000 Scenario.identity_401
         Scenario.after_first_token)
  = log_request
      (GET (EBAY_BROWSE_URL Scenario.sandbox_env ++ lit "/item_summary/search")
           (Bearer (lit "tok")) (marketplace_header Scenario.sandbox_env)
           (Some Scenario.default_params))
      Scenario.after_first_token.
Proof.
  destruct (warm_cache_request_sends_one_call Scenario.sandbox_env 1000
              Scenario.identity_401 Scenario.after_first_token (lit "tok"))
    as [Hsearch _].
  - reflexivity.
  - discriminate.
  - reflexivity.
  - apply Hsearch. reflexivity.
Defined.

(** What one run of [getEbayToken] sends: nothing, or the identity request. *)
Lemma getEbayToken_sent env now net w :
  outbound (snd (getEbayToken env now net w)) = outbound w
  ∨ outbound (snd (getEbayToken env now net w))
    = outbound w ++ [token_request env (client_credentials env)].
Proof.
  destruct (getEbayToken_cases env now net w) as [tok Hc|Hc Hk|g Hc Hk Hg|e Hc Hk Hg];
    cbn; auto.
Qed.

(** What one run of the search handler sends. *)
Lemma search_handler_sent env query now net w :
  ∃ sent, outbound (snd (search_handler env query now net w)) = outbound w ++ sent
    ∧ (sent = []
       ∨ sent = [token_request env (client_credentials env)]
       ∨ (∃ tok params,
            sent = [GET (EBAY_BROWSE_URL env ++ lit "/item_summary/search")
                        (Bearer tok) (marketplace_header env) (Some params)])
       ∨ (∃ tok params,
            sent = [token_request env (client_credentials env);
                    GET (EBAY_BROWSE_URL env ++ lit "/item_summary/search")
                        (Bearer tok) (marketplace_header env) (Some params)])).
Proof.
  pose proof (build_searchParams_state query w) as Hw.
  destruct (build_searchParams query w) as [[params|e] w0] eqn:Hb; cbn in Hw; subst w0.
  - destruct (getEbayToken env now net w) as [[token|error] w1] eqn:Hg;
      pose proof (getEbayToken_sent env now net w) as Hsent; rewrite Hg in Hsent;
      cbn [snd] in Hsent.
    + rewrite (search_handler_forwards _ _ _ _ _ _ _ _ Hb Hg). cbn.
      destruct Hsent as [-> | ->].
      * eexists [_]. split; [done|]. right; right; left. by eexists _, _.
      * eexists [_; _]. rewrite <- app_assoc. split; [done|].
        right; right; right. by eexists _, _.
    + rewrite (search_handler_without_token _ _ _ _ _ _ _ _ Hb Hg). cbn [snd].
      destruct Hsent as [-> | ->].
      * exists []. rewrite app_nil_r. auto.
      * eexists [_]. auto.
  - rewrite (search_handler_type_error env query now net w e) by (by rewrite Hb).
    exists []. rewrite app_nil_r. auto.
Qed.

(** What one run of the item handler sends. *)
Lemma item_handler_sent env itemId now net w :
  ∃ sent, outbound (snd (item_handler env itemId now net w)) = outbound w ++ sent
    ∧ (sent = []
       ∨ sent = [token_request env (client_credentials env)]
       ∨ (∃ tok,
            sent = [GET (EBAY_BROWSE_URL env ++ lit "/item/" ++ default [] itemId)
                        (Bearer tok) (marketplace_header env) None])
       ∨ (∃ tok,
            sent = [token_request env (client_credentials env);
                    GET (EBAY_BROWSE_URL env ++ lit "/item/" ++ default [] itemId)
                        (Bearer tok) (marketplace_header env) None])).
Proof.
  destruct itemId as [[|c s]|];
    [exists []; rewrite app_nil_r; auto| |exists []; rewrite app_nil_r; auto].
  destruct (getEbayToken env now net w) as [[token|error] w1] eqn:Hg;
    pose proof (getEbayToken_sent env now net w) as Hsent; rewrite Hg in Hsent;
    cbn [snd] in Hsent.
  - rewrite (item_handler_forwards env (c :: s) now net w token w1 (ltac:(done)) Hg).
    cbn. destruct Hsent as [-> | ->].
    + eexists [_]. split; [done|]. right; right; left. by eexists.
    + eexists [_; _]. rewrite <- app_assoc. split; [done|].
      right; right; right. by eexists.
  - rewrite (item_handler_without_token env (c :: s) now net w error w1 (ltac:(done)) Hg).
    cbn [snd]. destruct Hsent as [-> | ->].
    + exists []. rewrite app_nil_r. auto.
    + eexists [_]. auto.
Qed.

(** X8. A request is served with at most two outbound calls and no retry:
    the log grows by nothing, by the identity request, by the marketplace
    call, or by the identity request followed by the marketplace call, and
    the marketplace call is never sent before the identity request. *)
Theorem handlers_send_at_most_two_calls env now net w :
  (∀ query, ∃ sent,
     outbound (snd (search_handler env query now net w)) = outbound w ++ sent
     ∧ (length sent ≤ 2)%nat
     ∧ (∀ i r, sent !! i = Some r →
               r = token_request env (client_credentials env) ∧ i = 0%nat
               ∨ (∃ tok params,
                    r = GET (EBAY_BROWSE_URL env ++ lit "/item_summary/search")
                            (Bearer tok) (marketplace_header env) (Some params))
                 ∧ sent !! S i = None))
  ∧ (∀ itemId, ∃ sent,
       outbound (snd (item_handler env itemId now net w)) = outbound w ++ sent
       ∧ (length sent ≤ 2)%nat
       ∧ (∀ i r, sent !! i = Some r →
                 r = token_request env (client_credentials env) ∧ i = 0%nat
                 ∨ (∃ tok,
                      r = GET (EBAY_BROWSE_URL env ++ lit "/item/" ++ default [] itemId)
                              (Bearer tok) (marketplace_header env) None)
                   ∧ sent !! S i = None)).
Proof.
  split.
  - intros query.
    destruct (search_handler_sent env query now net w)
      as (sent & Hout & [->|[->|[(tok & params & ->)|(tok & params & ->)]]]);
      eexists; (split; [exact Hout|]); (split; [cbn; lia|]); intros i r Hi.
    + done.
    + destruct i; [|done]. injection Hi as <-. by left.
    + destruct i; [|done]. injection Hi as <-. right. split; [by eexists _, _|done].
    + destruct i as [|[|i]]; [| |done]; injection Hi as <-; [by left|].
      right. split; [by eexists _, _|done].
  - intros itemId.
    destruct (item_handler_sent env itemId now net w)
      as (sent & Hout & [->|[->|[(tok & ->)|(tok & ->)]]]);
      eexists; (split; [exact Hout|]); (split; [cbn; lia|]); intros i r Hi.
    + done.
    + destruct i; [|done]. injection Hi as <-. by left.
    + destruct i; [|done]. injection Hi as <-. right. split; [by eexists|done].
    + destruct i as [|[|i]]; [| |done]; injection Hi as <-; [by left|].
      right. split; [by eexists|done].
Qed.

(** ** What is forwarded to the marketplace *)

Lemma parseInt_number v r : parseInt v = Some r → r = JNaN ∨ ∃ n, r = JNum n.
Proof.
  unfold parseInt. destruct (to_string v) as [s|]; [|done]. intros [= <-].
  unfold parseInt_string. repeat case_match; eauto.
Qed.

(** X6. Only the four known parameters are forwarded: whatever keys the
    query string has, [searchParams] holds [category_ids], [limit] and
    [offset], possibly [q], and nothing else; [limit] and [offset] are
    numbers or NaN, never the caller's string. *)
Theorem search_params_known_keys query w params w' :
  build_searchParams query w = (Return params, w') →
  {["category_ids"; "limit"; "offset"]} ⊆ dom params
  ∧ dom params ⊆ {["category_ids"; "limit"; "offset"; "q"]}
  ∧ (∀ key value,
       key = "limit" ∨ key = "offset" →
       params !! key = Some value →
       value = JNaN ∨ ∃ n, value = JNum n).
Proof.
  intros Hb.
  destruct (build_searchParams_returned _ _ _ _ Hb)
    as (_ & limit & offset & Hlim & Hoff & Hq).
  assert (∃ base : gmap string jsval,
            params = <["category_ids" :=
                       default (JStr CLOTHING_CATEGORY_ID) (query !! "category")]> base
            ∧ (base = <["offset" := offset]> (<["limit" := limit]> ∅)
               ∨ ∃ t, base = <["q" := JStr t]>
                               (<["offset" := offset]> (<["limit" := limit]> ∅))))
    as (base & -> & Hbase).
  { destruct Hq as [(s & _ & ->)|(_ & _ & ->)]; [|eauto].
    case_bool_decide; eauto. }
  split; [|split].
  - destruct Hbase as [->|[t ->]]; rewrite !dom_insert_L, dom_empty_L;
      intros k; rewrite !elem_of_union, !elem_of_singleton; tauto.
  - destruct Hbase as [->|[t ->]]; rewrite !dom_insert_L, dom_empty_L;
      intros k; rewrite !elem_of_union, !elem_of_singleton, elem_of_empty; tauto.
  - intros key value Hkey Hv.
    destruct Hbase as [->|[t ->]], Hkey as [->| ->]; simplify_map_eq;
      by eapply parseInt_number.
Qed.

Lemma search_params_known_keys_witness :
  {["category_ids"; "limit"; "offset"]} ⊆ dom Edge.unknown_key_params
  ∧ dom Edge.unknown_key_params ⊆ {["category_ids"; "limit"; "offset"; "q"]}
  ∧ (∀ key value,
       key = "limit" ∨ key = "offset" →
       Edge.unknown_key_params !! key = Some value →
       value = JNaN ∨ ∃ n, value = JNum n).
Proof.
  apply (search_params_known_keys Edge.unknown_key initial_world
           Edge.unknown_key_params initial_world).
  reflexivity.
Defined.

(** X7. When [q] is forwarded, it is the trimmed value of the string the
    caller gave: it is not empty and neither starts nor ends with a white
    space character. *)
Theorem forwarded_q_is_trimmed query w params w' v :
  build_searchParams query w = (Return params, w') →
  params !! "q" = Some v →
  ∃ s, query !! "q" = Some (JStr s)
       ∧ v = JStr (trim s)
       ∧ trim s ≠ []
       ∧ (∀ c r, trim s = c :: r → is_js_space c = false)
       ∧ (∀ r c, trim s = r ++ [c] → is_js_space c = false).
Proof.
  intros Hb Hv.
  destruct (build_searchParams_returned _ _ _ _ Hb)
    as (_ & limit & offset & _ & _ & Hq).
  destruct Hq as [(s & Hs & ->)|(_ & _ & ->)]; [|by simplify_map_eq].
  case_bool_decide as Ht; [|by simplify_map_eq]. simplify_map_eq.
  destruct (query !! "q") as [q|] eqn:Eq; cbn [default from_option id] in Hs.
  - subst q. exists s. split; [done|]. split; [done|]. split; [done|].
    split; [apply trim_head|apply trim_end_last].
  - injection Hs as <-. done.
Qed.

Lemma forwarded_q_is_trimmed_witness :
  ∃ s, Scenario.jacket_query !! "q" = Some (JStr s)
       ∧ JStr (lit "jacket") = JStr (trim s)
       ∧ trim s ≠ []
       ∧ (∀ c r, trim s = c :: r → is_js_space c = false)
       ∧ (∀ r c, trim s = r ++ [c] → is_js_space c = false).
Proof.
  apply (forwarded_q_is_trimmed Scenario.jacket_query initial_world
           Scenario.jacket_params initial_world).
  - reflexivity.
  - reflexivity.
Defined.

(** ** Environment selection *)

(** X9. Every call that [getEbayToken] or a handler sends goes to the host of
    the selected environment, and an identity request carries the credentials
    of that environment only: production when [EBAY_API_ENV] is exactly
    [production], sandbox for any other value or none. *)
Theorem calls_stay_in_selected_environment env now net w :
  ∃ host id secret,
    (env !! "EBAY_API_ENV" = Some (lit "production")
     ∧ host = lit "https://api.ebay.com/"
     ∧ id = env !! "EBAY_PRODUCTION_CLIENT_ID"
     ∧ secret = env !! "EBAY_PRODUCTION_CLIENT_SECRET"
     ∨ env !! "EBAY_API_ENV" ≠ Some (lit "production")
       ∧ host = lit "https://api.sandbox.ebay.com/"
       ∧ id = env !! "EBAY_SANDBOX_CLIENT_ID"
       ∧ secret = env !! "EBAY_SANDBOX_CLIENT_SECRET")
    ∧ ∀ sent r,
        outbound (snd (getEbayToken env now net w)) = outbound w ++ sent
        ∨ (∃ query, outbound (snd (search_handler env query now net w))
                    = outbound w ++ sent)
        ∨ (∃ itemId, outbound (snd (item_handler env itemId now net w))
                     = outbound w ++ sent) →
        r ∈ sent →
        host `prefix_of` request_url r
        ∧ ∀ c, request_auth r = Basic c →
               c = default [] id ++ lit ":" ++ default [] secret.
Proof.
  assert (∀ sent r,
            outbound (snd (getEbayToken env now net w)) = outbound w ++ sent
            ∨ (∃ query, outbound (snd (search_handler env query now net w))
                        = outbound w ++ sent)
            ∨ (∃ itemId, outbound (snd (item_handler env itemId now net w))
                         = outbound w ++ sent) →
            r ∈ sent →
            r = token_request env (client_credentials env)
            ∨ ∃ path tok params,
                r = GET (EBAY_BROWSE_URL env ++ lit "/" ++ path) (Bearer tok)
                        (marketplace_header env) params) as Hshape.
  { intros sent r Hrun Hr.
    assert (sent = [] ∨ sent = [token_request env (client_credentials env)]
            ∨ (∃ path tok params,
                 sent = [GET (EBAY_BROWSE_URL env ++ lit "/" ++ path) (Bearer tok)
                             (marketplace_header env) params])
            ∨ (∃ path tok params,
                 sent = [token_request env (client_credentials env);
                         GET (EBAY_BROWSE_URL env ++ lit "/" ++ path) (Bearer tok)
                             (marketplace_header env) params])) as Hsent.
    { destruct Hrun as [Hrun|[[query Hrun]|[itemId Hrun]]].
      - destruct (getEbayToken_sent env now net w) as [H|H]; rewrite H in Hrun.
        + left. apply (app_inv_head (outbound w)). by rewrite app_nil_r.
        + right; left. symmetry. by apply (app_inv_head (outbound w)).
      - destruct (search_handler_sent env query now net w) as (sent' & H & Hs).
        rewrite H in Hrun. apply app_inv_head in Hrun as ->.
        destruct Hs as [->|[->|[(tok & params & ->)|(tok & params & ->)]]]; auto.
        + right; right; left. by exists (lit "item_summary/search"), tok, (Some params).
        + right; right; right. by exists (lit "item_summary/search"), tok, (Some params).
      - destruct (item_handler_sent env itemId now net w) as (sent' & H & Hs).
        rewrite H in Hrun. apply app_inv_head in Hrun as ->.
        destruct Hs as [->|[->|[(tok & ->)|(tok & ->)]]]; auto.
        + right; right; left. by exists (lit "item/" ++ default [] itemId), tok, None.
        + right; right; right. by exists (lit "item/" ++ default [] itemId), tok, None. }
    destruct Hsent as [->|[->|[(path & tok & params & ->)|(path & tok & params & ->)]]].
    - by apply elem_of_nil in Hr.
    - apply list_elem_of_singleton in Hr as ->. by left.
    - apply list_elem_of_singleton in Hr as ->. right. by eexists _, _, _.
    - apply elem_of_cons in Hr as [->|Hr]; [by left|].
      apply list_elem_of_singleton in Hr as ->. right. by eexists _, _, _. }
  destruct (decide (env !! "EBAY_API_ENV" = Some (lit "production"))) as [Hprod|Hsand].
  - exists (lit "https://api.ebay.com/"), (env !! "EBAY_PRODUCTION_CLIENT_ID"),
      (env !! "EBAY_PRODUCTION_CLIENT_SECRET").
    split; [by left|]. intros sent r Hrun Hr.
    assert (isProduction env = true) as Hp by by apply bool_decide_eq_true.
    destruct (Hshape sent r Hrun Hr) as [->|(path & tok & params & ->)];
      unfold token_request, client_credentials, EBAY_IDENTITY_URL, EBAY_BROWSE_URL,
        EBAY_API_BASE_URL, EBAY_CLIENT_ID, EBAY_CLIENT_SECRET; rewrite Hp;
      cbn [request_url request_auth].
    + split; [by eexists|]. by intros c [= <-].
    + split; [by eexists|]. intros c [=].
  - exists (lit "https://api.sandbox.ebay.com/"), (env !! "EBAY_SANDBOX_CLIENT_ID"),
      (env !! "EBAY_SANDBOX_CLIENT_SECRET").
    split; [by right|]. intros sent r Hrun Hr.
    assert (isProduction env = false) as Hp by by apply bool_decide_eq_false.
    destruct (Hshape sent r Hrun Hr) as [->|(path & tok & params & ->)];
      unfold token_request, client_credentials, EBAY_IDENTITY_URL, EBAY_BROWSE_URL,
        EBAY_API_BASE_URL, EBAY_CLIENT_ID, EBAY_CLIENT_SECRET; rewrite Hp;
      cbn [request_url request_auth].
    + split; [by eexists|]. by intros c [= <-].
    + split; [by eexists|]. intros c [=].
Qed.
